(** * The rule-matching and categorization engine of [taskpane.ts]

    A shallow embedding of the [Rule] and [Transaction] classes, of
    [makeRules], of the loop of [getTransactions] that fills the
    collection, of [runRules] and of [scrapeTags], together with the
    parts of the ECMAScript library they call.

    - Strings are sequences of code units; the embedding uses [string]
      (8-bit code units), which covers every character the code itself
      inspects (['>'], ['<'], [','], ['-'], ['.'] and the decimal digits).
    - A [number] is an IEEE-754 binary64 value ([spec_float] with
      precision 53 and maximal exponent 1024).
    - A [Set<string>] is the list of its elements in insertion order.
    - Objects live in a store; a [Transaction] mutated by [runRules] is
      reached through its reference, so that two entries of the
      collection holding the same object share every update. *)

From Stdlib Require Import ZArith String Ascii List Bool Lia SpecFloat.
From stdpp Require Import base list strings gmap.

Local Open Scope string_scope.

(** ** ECMAScript library *)

Module JS.

(** *** Numbers *)

Definition number : Type := spec_float.

Definition prec : Z := 53.
Definition emax : Z := 1024.

Definition NaN : number := S754_nan.

(** [a < b]: false as soon as one side is NaN. *)
Definition lt (a b : number) : bool := SFltb a b.

(** [a > b] is evaluated as [b < a]. *)
Definition gt (a b : number) : bool := SFltb b a.

(** The Number value of the decimal [m * 10^e10], rounded to nearest,
    ties to even; [neg] is the sign. *)
Definition of_decimal (neg : bool) (m : N) (e10 : Z) : number :=
  match m with
  | N0 => S754_zero neg
  | Npos p =>
      match e10 with
      | Zneg k =>
          SFdiv prec emax (S754_finite neg p 0)
                          (S754_finite false (Pos.pow 10 k) 0)
      | Z0 => binary_round prec emax neg p 0
      | Zpos k => binary_round prec emax neg (p * Pos.pow 10 k) 0
      end
  end.

(** *** Characters and strings *)

Definition is_digit (a : ascii) : bool :=
  let n := nat_of_ascii a in (48 <=? n)%nat && (n <=? 57)%nat.

Definition digit_value (a : ascii) : N := N_of_ascii a - 48.

(** WhiteSpace and LineTerminator code units below 256. *)
Definition is_space (a : ascii) : bool :=
  let n := nat_of_ascii a in
  (n =? 9)%nat || (n =? 10)%nat || (n =? 11)%nat || (n =? 12)%nat ||
  (n =? 13)%nat || (n =? 32)%nat || (n =? 160)%nat.

Fixpoint take_while (p : ascii -> bool) (s : string) : string :=
  match s with
  | String a r => if p a then String a (take_while p r) else EmptyString
  | EmptyString => EmptyString
  end.

Fixpoint drop_while (p : ascii -> bool) (s : string) : string :=
  match s with
  | String a r => if p a then drop_while p r else s
  | EmptyString => EmptyString
  end.

Fixpoint starts_with (p s : string) : bool :=
  match p, s with
  | EmptyString, _ => true
  | String a p', String b s' => Ascii.eqb a b && starts_with p' s'
  | String _ _, EmptyString => false
  end.

(** [String.prototype.includes(searchString)], search from position 0. *)
Fixpoint includes (s searchString : string) : bool :=
  starts_with searchString s ||
  match s with
  | String _ r => includes r searchString
  | EmptyString => false
  end.

(** [String.prototype.split(separator)] for a one-character separator. *)
Fixpoint split (separator : ascii) (s : string) : list string :=
  match s with
  | EmptyString => [EmptyString]
  | String a r =>
      if Ascii.eqb a separator then EmptyString :: split separator r
      else match split separator r with
           | piece :: pieces => String a piece :: pieces
           | [] => [String a EmptyString]
           end
  end.

(** [Array.prototype.join(separator)] on an array of strings. *)
Fixpoint join (separator : string) (l : list string) : string :=
  match l with
  | [] => EmptyString
  | [x] => x
  | x :: rest => x +:+ separator +:+ join separator rest
  end.

(** *** parseFloat *)

Definition digits_value (s : string) : N :=
  fold_left (fun acc a => (10 * acc + digit_value a)%N)
            (list_ascii_of_string s) 0%N.

(** ExponentPart: [e] or [E], an optional sign, at least one digit;
    anything else is not part of the literal and counts as exponent 0. *)
Definition exponent_part (s : string) : Z :=
  match s with
  | String a r =>
      if Ascii.eqb a "e" || Ascii.eqb a "E" then
        let '(neg, r') :=
          match r with
          | String "-" r' => (true, r')
          | String "+" r' => (false, r')
          | _ => (false, r)
          end in
        match take_while is_digit r' with
        | EmptyString => 0%Z
        | ds => if neg then (- Z.of_N (digits_value ds))%Z
                else Z.of_N (digits_value ds)
        end
      else 0%Z
  | EmptyString => 0%Z
  end.

(** [parseFloat(string)]: leading white space is dropped, then the
    longest prefix that is a StrDecimalLiteral is converted; NaN when
    there is no such prefix. *)
Definition parseFloat (inputString : string) : number :=
  let trimmed := drop_while is_space inputString in
  let '(neg, unsigned) :=
    match trimmed with
    | String "-" r => (true, r)
    | String "+" r => (false, r)
    | _ => (false, trimmed)
    end in
  if starts_with "Infinity" unsigned then S754_infinity neg
  else
    let int_part := take_while is_digit unsigned in
    let after_int := drop_while is_digit unsigned in
    let '(frac_part, after_frac) :=
      match after_int with
      | String "." r => (take_while is_digit r, drop_while is_digit r)
      | _ => (EmptyString, after_int)
      end in
    match int_part +:+ frac_part with
    | EmptyString => NaN
    | mantissa =>
        of_decimal neg (digits_value mantissa)
          (exponent_part after_frac - Z.of_nat (String.length frac_part))
    end.

(** *** Set<string>: the elements in insertion order *)

Definition has (s : list string) (x : string) : bool := bool_decide (x ∈ s).

Definition add (s : list string) (x : string) : list string :=
  if has s x then s else (s ++ [x])%list.

Definition delete (s : list string) (x : string) : list string :=
  List.filter (fun y => negb (String.eqb y x)) s.

(** [new Set(iterable)] *)
Definition new_Set (l : list string) : list string := fold_left add l [].

Definition size (s : list string) : nat := length s.

(** *** Further library functions *)

(** [s.replace(c, "")] for a one-character pattern [c]: the first
    occurrence of [c] is removed. *)
Fixpoint replace_first (c : ascii) (s : string) : string :=
  match s with
  | EmptyString => EmptyString
  | String a r => if Ascii.eqb a c then r else String a (replace_first c r)
  end.

(** [a + b] on numbers. *)
Definition plus (a b : number) : number := SFadd prec emax a b.

(** The Number value of a natural number, as a loop counter takes it. *)
Definition of_nat (n : nat) : number :=
  binary_normalize prec emax (Z.of_nat n) 0 false.

End JS.

(** ** The amount patterns [/(?:>([-\d.]+))/] and [/(?:<([-\d.]+))/] *)

Module Pattern.

(** The character class [[-\d.]]. *)
Definition bound_char (a : ascii) : bool :=
  Ascii.eqb a "-" || JS.is_digit a || Ascii.eqb a ".".

(** What [exec] returns on a match: item 0 is the whole match, item 1
    the capture group. *)
Record match_result : Type := { whole : string; group1 : string }.

(** [/(?:op([-\d.]+))/.exec(s)]: the leftmost position where [op] is
    followed by at least one character of the class, with the longest
    run of such characters captured; [None] stands for [null]. *)
Fixpoint exec (op : ascii) (s : string) : option match_result :=
  match s with
  | EmptyString => None
  | String a r =>
      if Ascii.eqb a op then
        match JS.take_while bound_char r with
        | EmptyString => exec op r
        | run => Some {| whole := String op run; group1 := run |}
        end
      else exec op r
  end.

End Pattern.

(** ** class Rule *)

Module Rule.

Record t : Type := mk {
  category : string;
  tag : list string;
  description : string;
  account : string;
  institution : string;
  amount : string
}.

Definition new (category tagRaw description account institution amount : string) : t :=
  {| category := category;
     tag := JS.delete (JS.new_Set (JS.split "," tagRaw)) "";
     description := description;
     account := account;
     institution := institution;
     amount := amount |}.

Definition matchDescription (this : t) (testString : string) : bool :=
  String.eqb (description this) "" || JS.includes testString (description this).

Definition matchAccount (this : t) (testString : string) : bool :=
  String.eqb (account this) "" || JS.includes testString (account this).

Definition matchInstitution (this : t) (testString : string) : bool :=
  String.eqb (institution this) "" || JS.includes testString (institution this).

(** The result is [None] when control reaches the end of the function
    body without a [return], that is, when the call yields [undefined]. *)
Definition matchAmount (this : t) (testNumber : JS.number) : option bool :=
  let lowerBound := Pattern.exec ">" (amount this) in
  let upperBound := Pattern.exec "<" (amount this) in
  if negb (bool_decide (is_Some lowerBound)) && negb (bool_decide (is_Some upperBound))
  then Some true
  else
    match lowerBound, upperBound with
    | Some lb, Some ub =>
        Some (JS.gt testNumber (JS.parseFloat (Pattern.group1 lb)) &&
              JS.lt testNumber (JS.parseFloat (Pattern.group1 ub)))
    | _, _ =>
        match lowerBound with
        | Some lb => Some (JS.gt testNumber (JS.parseFloat (Pattern.group1 lb)))
        | None =>
            match upperBound with
            | Some ub => Some (JS.lt testNumber (JS.parseFloat (Pattern.group1 ub)))
            | None => None
            end
        end
    end.

End Rule.

(** ** class Transaction *)

(** A [Date] object holds a time value. *)
Record Date : Type := { timeValue : JS.number }.

Module Transaction.

Record t : Type := mk {
  address : option JS.number;
  date : Date;
  description : string;
  category : string;
  tags : list string;
  amount : JS.number;
  account : string;
  accountNum : string;
  institution : string;
  month : Date;
  week : Date;
  fullDescription : string;
  checkNumber : string;
  transactionId : string;
  categorized : bool
}.

(** Field assignments. *)
Definition set_category (c : string) (x : t) : t :=
  mk (address x) (date x) (description x) c (tags x) (amount x) (account x)
     (accountNum x) (institution x) (month x) (week x) (fullDescription x)
     (checkNumber x) (transactionId x) (categorized x).

Definition set_categorized (b : bool) (x : t) : t :=
  mk (address x) (date x) (description x) (category x) (tags x) (amount x)
     (account x) (accountNum x) (institution x) (month x) (week x)
     (fullDescription x) (checkNumber x) (transactionId x) b.

Definition set_tags (s : list string) (x : t) : t :=
  mk (address x) (date x) (description x) (category x) s (amount x)
     (account x) (accountNum x) (institution x) (month x) (week x)
     (fullDescription x) (checkNumber x) (transactionId x) (categorized x).

End Transaction.

(** ** The object store *)

Definition ref : Type := nat.

(** Every reference denotes an object. *)
Definition store : Type := ref -> Transaction.t.

Definition write (h : store) (l : ref) (x : Transaction.t) : store :=
  fun l' => if Nat.eqb l' l then x else h l'.

(** A [Map<string, Transaction>]: its entries in insertion order. *)
Definition TransactionMap : Type := list (string * ref).

Definition values (m : TransactionMap) : list ref := map snd m.

(** ** runRules *)

(** Truthiness of the value of a predicate call. *)
Definition truthy (v : option bool) : bool :=
  match v with
  | Some true => true
  | _ => false
  end.

(** The conjunction [a && b && c && d]: its value is the first falsy
    operand, or the last one. *)
Definition ruleMatch (rule : Rule.t) (transaction : Transaction.t) : option bool :=
  if Rule.matchDescription rule (Transaction.description transaction) then
    if Rule.matchAccount rule (Transaction.account transaction) then
      if Rule.matchInstitution rule (Transaction.institution transaction) then
        Rule.matchAmount rule (Transaction.amount transaction)
      else Some false
    else Some false
  else Some false.

Definition categorizable (uncategorizedOnly : bool) (transaction : Transaction.t) : bool :=
  negb (Transaction.categorized transaction) &&
  (negb uncategorizedOnly ||
   (uncategorizedOnly && String.eqb (Transaction.category transaction) "")).

(** [transaction.tags.add(tag)] *)
Definition add_tag (h : store) (transaction : ref) (tag : string) : store :=
  write h transaction
    (Transaction.set_tags (JS.add (Transaction.tags (h transaction)) tag) (h transaction)).

(** The body of the inner loop, for one rule. *)
Definition rule_body (uncategorizedOnly : bool) (transaction : ref)
    (h : store) (rule : Rule.t) : store :=
  let ruleMatch := ruleMatch rule (h transaction) in
  let categorizable := categorizable uncategorizedOnly (h transaction) in
  if truthy ruleMatch then
    let h1 :=
      if categorizable then
        let h' := write h transaction
                    (Transaction.set_category (Rule.category rule) (h transaction)) in
        write h' transaction (Transaction.set_categorized true (h' transaction))
      else h in
    fold_left (fun h2 tag => add_tag h2 transaction tag) (Rule.tag rule) h1
  else h.

(** The body of the outer loop, for one transaction. *)
Definition transaction_body (rules : list Rule.t) (uncategorizedOnly : bool)
    (st : store * list ref) (transaction : ref) : store * list ref :=
  (fold_left (rule_body uncategorizedOnly transaction) rules (fst st),
   (snd st ++ [transaction])%list).

(** [runRules]: the store after the pass and the returned array. The two
    calls of [logLocal] only append text to the page. *)
Definition runRules (rules : list Rule.t) (transactionObject : TransactionMap)
    (uncategorizedOnly : bool) (h : store) : store * list ref :=
  let matches : list ref := [] in
  let transactions := values transactionObject in
  fold_left (transaction_body rules uncategorizedOnly) transactions (h, matches).

(** ** scrapeTags *)

(** A cell of the output: [None] is [undefined]. *)
Definition cell : Type := option string.

(** The value of [tagArray] at the [push]. *)
Definition tagArray (txn : Transaction.t) : cell :=
  if (0 <? JS.size (Transaction.tags txn))%nat
  then Some (JS.join "," (Transaction.tags txn))
  else None.

Definition scrapeTags (h : store) (txns : list ref) : list (list cell) :=
  fold_left (fun tagList txn => (tagList ++ [[tagArray (h txn)]])%list) txns [].

(** ** What the pass does to one object *)

(** A rule fires when the conjunction of its four predicates is truthy. *)
Definition fires (rule : Rule.t) (transaction : Transaction.t) : bool :=
  truthy (ruleMatch rule transaction).

Definition add_tags (tags : list string) (x : Transaction.t) : Transaction.t :=
  Transaction.set_tags (fold_left JS.add tags (Transaction.tags x)) x.

(** One turn of the inner loop, on the object itself. *)
Definition apply_rule (uncategorizedOnly : bool) (x : Transaction.t)
    (rule : Rule.t) : Transaction.t :=
  if fires rule x then
    add_tags (Rule.tag rule)
      (if categorizable uncategorizedOnly x
       then Transaction.set_categorized true
              (Transaction.set_category (Rule.category rule) x)
       else x)
  else x.

(** The whole inner loop, on the object itself. *)
Definition apply_rules (uncategorizedOnly : bool) (rules : list Rule.t)
    (x : Transaction.t) : Transaction.t :=
  fold_left (apply_rule uncategorizedOnly) rules x.

(** ** Vocabulary of the properties *)

(** The tags of an object, as a set. *)
Definition tag_set (x : Transaction.t) : gset string :=
  list_to_set (Transaction.tags x).

(** The rules of a list that fire on an object, in list order. *)
Definition firing (rules : list Rule.t) (x : Transaction.t) : list Rule.t :=
  List.filter (fun rule => fires rule x) rules.

(** The union of the tags of the firing rules. *)
Definition firing_tags (rules : list Rule.t) (x : Transaction.t) : gset string :=
  ⋃ (map (fun rule => list_to_set (Rule.tag rule)) (firing rules x)).

(** The fields that are neither [category], [categorized] nor [tags]. *)
Definition same_frame (x y : Transaction.t) : Prop :=
  Transaction.date y = Transaction.date x /\
  Transaction.description y = Transaction.description x /\
  Transaction.fullDescription y = Transaction.fullDescription x /\
  Transaction.account y = Transaction.account x /\
  Transaction.accountNum y = Transaction.accountNum x /\
  Transaction.institution y = Transaction.institution x /\
  Transaction.month y = Transaction.month x /\
  Transaction.week y = Transaction.week x /\
  Transaction.checkNumber y = Transaction.checkNumber x /\
  Transaction.amount y = Transaction.amount x /\
  Transaction.transactionId y = Transaction.transactionId x /\
  Transaction.address y = Transaction.address x.

(** [s] contains [sub] as a run of consecutive characters. *)
Definition is_substring (sub s : string) : Prop :=
  exists pre post : string, s = pre +:+ sub +:+ post.

(** The bounds [matchAmount] compares with: the number read from the
    capture group of each pattern, when the pattern matches. *)
Definition lowerBound (rule : Rule.t) : option JS.number :=
  (fun m => JS.parseFloat (Pattern.group1 m)) <$> Pattern.exec ">" (Rule.amount rule).

Definition upperBound (rule : Rule.t) : option JS.number :=
  (fun m => JS.parseFloat (Pattern.group1 m)) <$> Pattern.exec "<" (Rule.amount rule).

(** The bound policy in the words of the specification: no bound, only a
    lower one, only an upper one, both; every bound is exclusive. *)
Definition bound_policy (lower upper : option JS.number) (n : JS.number) : bool :=
  match lower, upper with
  | None, None => true
  | Some L, None => JS.gt n L
  | None, Some U => JS.lt n U
  | Some L, Some U => JS.gt n L && JS.lt n U
  end.

Definition is_NaN (x : JS.number) : bool :=
  match x with
  | S754_nan => true
  | _ => false
  end.

(** A side of an amount filter has a parseable bound when its pattern
    matches and the captured text reads as a number. *)
Definition parseable_bound (op : ascii) (amount : string) : option JS.number :=
  match Pattern.exec op amount with
  | Some m =>
      if is_NaN (JS.parseFloat (Pattern.group1 m)) then None
      else Some (JS.parseFloat (Pattern.group1 m))
  | None => None
  end.

(** The literal forms of an amount filter in the words of the
    specification: [>N], [<N] or [>N<M], where a signed decimal number
    is an optional [-] followed by digits with at most one [.] among
    them and at least one digit. *)
Definition signed_decimal (s : string) : bool :=
  let unsigned := match s with String "-" r => r | _ => s end in
  let int_part := JS.take_while JS.is_digit unsigned in
  match JS.drop_while JS.is_digit unsigned with
  | EmptyString => negb (String.eqb int_part "")
  | String "." r =>
      String.eqb (JS.drop_while JS.is_digit r) "" &&
      negb (String.eqb (int_part +:+ r) "")
  | _ => false
  end.

Definition literal_form (amount : string) : bool :=
  match amount with
  | String ">" r =>
      let before_lt := fun a => negb (Ascii.eqb a "<") in
      signed_decimal (JS.take_while before_lt r) &&
      match JS.drop_while before_lt r with
      | EmptyString => true
      | String _ M => signed_decimal M
      end
  | String "<" r => signed_decimal r
  | _ => false
  end.

(** A rule that only constrains the amount, and one with a category and
    no filter at all. *)
Definition amount_rule (amount : string) : Rule.t :=
  Rule.new "" "" "" "" "" amount.

Definition category_rule (category tagRaw : string) : Rule.t :=
  Rule.new category tagRaw "" "" "" "".

(** A transaction as the constructor leaves it ([categorized] is false),
    for given description, category, tags and amount. *)
Definition epoch : Date := {| timeValue := S754_zero false |}.

Definition transaction_of (description category : string)
    (tags : list string) (amount : string) : Transaction.t :=
  {| Transaction.address := None;
     Transaction.date := epoch;
     Transaction.description := description;
     Transaction.category := category;
     Transaction.tags := tags;
     Transaction.amount := JS.parseFloat amount;
     Transaction.account := "Checking";
     Transaction.accountNum := "xxxx1234";
     Transaction.institution := "Bank";
     Transaction.month := epoch;
     Transaction.week := epoch;
     Transaction.fullDescription := description;
     Transaction.checkNumber := "";
     Transaction.transactionId := "id";
     Transaction.categorized := false |}.

(** A store in which every reference holds the same object. *)
Definition store_of (x : Transaction.t) : store := fun _ => x.

(** ** Reading rows *)

(** How the evaluation of a constructor call on a row ends.
    [Untyped] stands for a normal completion that leaves [undefined] in
    a field declared [string]; such an object is outside the types of
    the program and is not represented. *)
Inductive completion (A : Type) : Type :=
| Normal (a : A)
| Throw_TypeError
| Untyped.

Arguments Normal {A} a.
Arguments Throw_TypeError {A}.
Arguments Untyped {A}.

(** The tags read from a cell: [new Set(cell.split(","))], then
    [delete("")]. *)
Definition parse_tags (cell : string) : list string :=
  JS.delete (JS.new_Set (JS.split "," cell)) "".

(** [new Rule(row[0], row[1], row[2], row[3], row[4], row[5])]: a cell
    beyond the end of the row reads as [undefined]; the constructor then
    throws at [tagRaw.split] when [row[1]] is missing. *)
Definition rule_of_row (row : list string) : completion Rule.t :=
  match row !! 1 with
  | None => Throw_TypeError
  | Some tagRaw =>
      match row !! 0, row !! 2, row !! 3, row !! 4, row !! 5 with
      | Some category, Some description, Some account, Some institution, Some amount =>
          Normal (Rule.new category tagRaw description account institution amount)
      | _, _, _, _, _ => Untyped
      end
  end.

(** One turn of the loop of [makeRules]: an exception ends the call; an
    untyped rule does not stop the loop, a later row may still throw. *)
Definition push_rule (outputData : completion (list Rule.t)) (row : list string)
    : completion (list Rule.t) :=
  match outputData, rule_of_row row with
  | Throw_TypeError, _ => Throw_TypeError
  | _, Throw_TypeError => Throw_TypeError
  | Normal l, Normal outputRow => Normal (l ++ [outputRow])%list
  | _, _ => Untyped
  end.

(** [makeRules]: [values.shift()] drops the first row, if there is one. *)
Definition makeRules (values : list (list string)) : completion (list Rule.t) :=
  fold_left push_rule (tail values) (Normal []).

Section Constructor.

(** [Date.parse], whose result on strings that are not in the ISO
    format is left to the implementation. *)
Variable Date_parse : string -> JS.number.

(** [new Date(value)] for a cell: [undefined] gives an invalid date. *)
Definition new_Date (value : option string) : Date :=
  {| timeValue := match value with
                  | Some s => Date_parse s
                  | None => JS.NaN
                  end |}.

(** [new Transaction(rowArray, address)]: the constructor throws at
    [rowArray[3].split] or at [rowArray[4].replace] when that cell is
    missing. *)
Definition new_Transaction (rowArray : list string) (address : option JS.number)
    : completion Transaction.t :=
  match rowArray !! 3 with
  | None => Throw_TypeError
  | Some tagsCell =>
      match rowArray !! 4 with
      | None => Throw_TypeError
      | Some amountCell =>
          match rowArray !! 1, rowArray !! 2, rowArray !! 5, rowArray !! 6,
                rowArray !! 7, rowArray !! 10, rowArray !! 11, rowArray !! 12 with
          | Some description, Some category, Some account, Some accountNum,
            Some institution, Some fullDescription, Some checkNumber,
            Some transactionId =>
              Normal
                {| Transaction.address := address;
                   Transaction.date := new_Date (rowArray !! 0);
                   Transaction.description := description;
                   Transaction.category := category;
                   Transaction.tags := parse_tags tagsCell;
                   Transaction.amount :=
                     JS.parseFloat (JS.replace_first "$" amountCell);
                   Transaction.account := account;
                   Transaction.accountNum := accountNum;
                   Transaction.institution := institution;
                   Transaction.month := new_Date (rowArray !! 8);
                   Transaction.week := new_Date (rowArray !! 9);
                   Transaction.fullDescription := fullDescription;
                   Transaction.checkNumber := checkNumber;
                   Transaction.transactionId := transactionId;
                   Transaction.categorized := false |}
          | _, _, _, _, _, _, _, _ => Untyped
          end
      end
  end.

(** *** The callback of [getTransactions] that fills the collection *)

(** [Map.prototype.set]: the value of an existing key is replaced where
    the entry stands; a new key is appended. *)
Fixpoint map_set (m : TransactionMap) (key : string) (value : ref) : TransactionMap :=
  match m with
  | [] => [(key, value)]
  | (k, v) :: rest =>
      if String.eqb k key then (k, value) :: rest
      else (k, v) :: map_set rest key value
  end.

(** [Map.prototype.get]; [None] is [undefined]. *)
Fixpoint map_get (m : TransactionMap) (key : string) : option ref :=
  match m with
  | [] => None
  | (k, v) :: rest => if String.eqb k key then Some v else map_get rest key
  end.

Definition keys (m : TransactionMap) : list string := map fst m.

(** The objects allocated so far, the next free reference, and the
    collection [txnPaginator]. *)
Record loader : Type := {
  objects : store;
  fresh : ref;
  txnPaginator : TransactionMap
}.

(** How the loop over the rows of a batch ends: it runs to the end, or
    a constructor call throws (the exception is caught and logged, the
    rows before it stay loaded), or a row leaves the types. *)
Inductive ending : Type := Completed | Threw | Left_types.

(** The loop over [sheet.text], from row [j] on, for the batch that
    starts at sheet row [i]. *)
Fixpoint load_rows (i : JS.number) (j : nat) (text : list (list string))
    (s : loader) : loader * ending :=
  match text with
  | [] => (s, Completed)
  | row :: rest =>
      let rowAddress := JS.plus (JS.plus i (JS.of_nat j)) (JS.of_nat 1) in
      match new_Transaction row (Some rowAddress) with
      | Normal newRow =>
          load_rows i (S j) rest
            {| objects := write (objects s) (fresh s) newRow;
               fresh := S (fresh s);
               txnPaginator :=
                 map_set (txnPaginator s) (Transaction.transactionId newRow) (fresh s) |}
      | Throw_TypeError => (s, Threw)
      | Untyped => (s, Left_types)
      end
  end.

End Constructor.

(** ** Vocabulary of the further properties *)

Fixpoint contains_char (c : ascii) (s : string) : bool :=
  match s with
  | EmptyString => false
  | String a r => Ascii.eqb a c || contains_char c r
  end.

Fixpoint all_digits (s : string) : bool :=
  match s with
  | EmptyString => true
  | String a r => JS.is_digit a && all_digits r
  end.

Fixpoint all_bound_chars (s : string) : bool :=
  match s with
  | EmptyString => true
  | String a r => Pattern.bound_char a && all_bound_chars r
  end.

(** A tag list as the constructors produce it: no tag twice, no empty
    tag, no comma in a tag. *)
Definition well_formed_tags (tags : list string) : Prop :=
  NoDup tags /\
  forall tag, tag ∈ tags -> tag <> "" /\ contains_char "," tag = false.

(** The cell with identifier of a row of the Transactions sheet. *)
Definition id_of_row (row : list string) : string := nth 12 row "".

(** The state of [getTransactions] before the first batch. *)
Definition empty_loader (h : store) : loader :=
  {| objects := h; fresh := 0; txnPaginator := [] |}.

(** A parser of dates that knows no format. *)
Definition no_date (s : string) : JS.number := JS.NaN.

(** A row of the Transactions sheet with given description, category,
    tags, amount and identifier. *)
Definition sheet_row (description category tagsCell amountCell transactionId : string)
    : list string :=
  ["10/31/2026"; description; category; tagsCell; amountCell; "Checking";
   "xxxx1234"; "Bank"; "10/1/2026"; "10/25/2026"; description; "";
   transactionId].

(** The rule that [makeRules] builds from a row with six cells or more. *)
Definition rule_of_cells (row : list string) : Rule.t :=
  Rule.new (nth 0 row "") (nth 1 row "") (nth 2 row "") (nth 3 row "")
           (nth 4 row "") (nth 5 row "").

(** The collection holds every key once and every object once, and
    every object it holds has been allocated. *)
Definition loader_ok (s : loader) : Prop :=
  NoDup (keys (txnPaginator s)) /\
  NoDup (values (txnPaginator s)) /\
  forall l, l ∈ values (txnPaginator s) -> l < fresh s.

(** The state of the loader after one more row has been loaded. *)
Definition with_row (s : loader) (newRow : Transaction.t) : loader :=
  {| objects := write (objects s) (fresh s) newRow;
     fresh := S (fresh s);
     txnPaginator :=
       map_set (txnPaginator s) (Transaction.transactionId newRow) (fresh s) |}.

(** The address [i + j + 1] given to row [j] of the batch at [i]. *)
Definition rowAddress (i : JS.number) (j : nat) : JS.number :=
  JS.plus (JS.plus i (JS.of_nat j)) (JS.of_nat 1).

(** * Properties *)

(** ** Strings *)

Lemma starts_with_spec (p s : string) :
  JS.starts_with p s = true <-> exists post, s = p +:+ post.
Proof.
  revert s. induction p as [|a p IH]; intros s; simpl.
  - split; [intros _; by exists s | done].
  - destruct s as [|b s].
    + split; [done | intros [post H]; discriminate H].
    + rewrite andb_true_iff, Ascii.eqb_eq, IH. split.
      * intros [-> [post ->]]. by exists post.
      * intros [post H]. injection H as -> ->. eauto.
Qed.

Lemma includes_spec (s sub : string) :
  JS.includes s sub = true <-> is_substring sub s.
Proof.
  unfold is_substring. induction s as [|a s IH].
  - cbn [JS.includes]. rewrite orb_false_r, starts_with_spec. split.
    + intros [post H]. by exists "", post.
    + intros [pre [post H]]. destruct pre; [|discriminate H].
      simpl in H. by exists post.
  - cbn [JS.includes]. rewrite orb_true_iff, starts_with_spec, IH. split.
    + intros [[post H] | [pre [post H]]].
      * by exists "", post.
      * exists (String a pre), post. simpl. by rewrite H.
    + intros [pre [post H]]. destruct pre as [|b pre].
      * left. by exists post.
      * right. simpl in H. injection H as _ H. eauto.
Qed.

Lemma includes_empty (s : string) : JS.includes s "" = true.
Proof. apply includes_spec. by exists "", s. Qed.

(** ** The store: the loops act on one object at a time *)

Lemma write_same (h : store) (l : ref) (x : Transaction.t) : write h l x l = x.
Proof. unfold write. by rewrite Nat.eqb_refl. Qed.

Lemma write_other (h : store) (l l' : ref) (x : Transaction.t) :
  l' <> l -> write h l x l' = h l'.
Proof. intros Hne. unfold write. by apply Nat.eqb_neq in Hne as ->. Qed.

Lemma add_tags_nil (x : Transaction.t) : add_tags [] x = x.
Proof. by destruct x. Qed.

Lemma add_tags_cons (tag : string) (tags : list string) (x : Transaction.t) :
  add_tags (tag :: tags) x =
  add_tags tags (Transaction.set_tags (JS.add (Transaction.tags x) tag) x).
Proof. by destruct x. Qed.

Lemma tag_loop_spec (l : ref) (tags : list string) (h : store) (l' : ref) :
  fold_left (fun h2 tag => add_tag h2 l tag) tags h l' =
  if Nat.eqb l' l then add_tags tags (h l) else h l'.
Proof.
  revert h. induction tags as [|tag tags IH]; intros h; simpl.
  - rewrite add_tags_nil. by destruct (Nat.eqb l' l) eqn:E; [apply Nat.eqb_eq in E as ->|].
  - rewrite IH. unfold add_tag. rewrite write_same.
    destruct (Nat.eqb l' l) eqn:E.
    + by rewrite add_tags_cons.
    + apply Nat.eqb_neq in E. by rewrite write_other.
Qed.

Lemma rule_body_spec (uo : bool) (l : ref) (h : store) (rule : Rule.t) (l' : ref) :
  rule_body uo l h rule l' =
  if Nat.eqb l' l then apply_rule uo (h l) rule else h l'.
Proof.
  unfold rule_body, apply_rule, fires.
  destruct (truthy (ruleMatch rule (h l))).
  - rewrite tag_loop_spec. destruct (Nat.eqb l' l) eqn:E.
    + destruct (categorizable uo (h l)); [by rewrite !write_same | done].
    + apply Nat.eqb_neq in E.
      destruct (categorizable uo (h l)); [by rewrite !write_other | done].
  - by destruct (Nat.eqb l' l) eqn:E; [apply Nat.eqb_eq in E as ->|].
Qed.

Lemma rule_loop_spec (uo : bool) (l : ref) (rules : list Rule.t) (h : store) (l' : ref) :
  fold_left (rule_body uo l) rules h l' =
  if Nat.eqb l' l then apply_rules uo rules (h l) else h l'.
Proof.
  revert h. induction rules as [|rule rules IH]; intros h; simpl.
  - by destruct (Nat.eqb l' l) eqn:E; [apply Nat.eqb_eq in E as ->|].
  - rewrite IH, !rule_body_spec, Nat.eqb_refl.
    by destruct (Nat.eqb l' l).
Qed.

(** ** One rule, on one object *)

Lemma same_frame_refl (x : Transaction.t) : same_frame x x.
Proof. by repeat split. Qed.

Lemma same_frame_trans (x y z : Transaction.t) :
  same_frame x y -> same_frame y z -> same_frame x z.
Proof.
  unfold same_frame. intros Hxy Hyz. destruct_and!.
  repeat split; congruence.
Qed.

Lemma add_tags_frame (tags : list string) (x : Transaction.t) :
  same_frame x (add_tags tags x).
Proof. destruct x. by repeat split. Qed.

Lemma apply_rule_frame (uo : bool) (x : Transaction.t) (rule : Rule.t) :
  same_frame x (apply_rule uo x rule).
Proof.
  unfold apply_rule. destruct (fires rule x); [|apply same_frame_refl].
  eapply same_frame_trans; [|apply add_tags_frame].
  destruct (categorizable uo x); [|apply same_frame_refl].
  destruct x. by repeat split.
Qed.

Lemma apply_rules_frame (uo : bool) (rules : list Rule.t) (x : Transaction.t) :
  same_frame x (apply_rules uo rules x).
Proof.
  revert x. induction rules as [|rule rules IH]; intros x; simpl.
  - apply same_frame_refl.
  - eapply same_frame_trans; [apply apply_rule_frame | apply IH].
Qed.

(** Whether a rule fires depends on the frame only. *)
Lemma fires_frame (rule : Rule.t) (x y : Transaction.t) :
  same_frame x y -> fires rule y = fires rule x.
Proof.
  intros (_ & Hd & _ & Ha & _ & Hi & _ & _ & _ & Hm & _).
  unfold fires, ruleMatch. by rewrite Hd, Ha, Hi, Hm.
Qed.

Lemma fires_apply_rules (uo : bool) (rules : list Rule.t) (rule : Rule.t)
    (x : Transaction.t) :
  fires rule (apply_rules uo rules x) = fires rule x.
Proof. apply fires_frame, apply_rules_frame. Qed.

Lemma firing_apply_rule (uo : bool) (rules : list Rule.t) (rule : Rule.t)
    (x : Transaction.t) :
  firing rules (apply_rule uo x rule) = firing rules x.
Proof.
  unfold firing. apply List.filter_ext. intros r.
  apply fires_frame, apply_rule_frame.
Qed.

(** [category], [categorized] and [tags] after one rule. *)

Lemma add_tags_category (tags : list string) (x : Transaction.t) :
  Transaction.category (add_tags tags x) = Transaction.category x.
Proof. by destruct x. Qed.

Lemma add_tags_categorized (tags : list string) (x : Transaction.t) :
  Transaction.categorized (add_tags tags x) = Transaction.categorized x.
Proof. by destruct x. Qed.

Lemma add_tags_tags (tags : list string) (x : Transaction.t) :
  Transaction.tags (add_tags tags x) = fold_left JS.add tags (Transaction.tags x).
Proof. by destruct x. Qed.

Lemma apply_rule_category (uo : bool) (x : Transaction.t) (rule : Rule.t) :
  Transaction.category (apply_rule uo x rule) =
  if fires rule x && categorizable uo x then Rule.category rule
  else Transaction.category x.
Proof.
  unfold apply_rule. destruct (fires rule x); [|done].
  rewrite add_tags_category. destruct (categorizable uo x); by destruct x.
Qed.

Lemma apply_rule_categorized (uo : bool) (x : Transaction.t) (rule : Rule.t) :
  Transaction.categorized (apply_rule uo x rule) =
  if fires rule x && categorizable uo x then true
  else Transaction.categorized x.
Proof.
  unfold apply_rule. destruct (fires rule x); [|done].
  rewrite add_tags_categorized. destruct (categorizable uo x); by destruct x.
Qed.

Lemma apply_rule_tags (uo : bool) (x : Transaction.t) (rule : Rule.t) :
  Transaction.tags (apply_rule uo x rule) =
  if fires rule x then fold_left JS.add (Rule.tag rule) (Transaction.tags x)
  else Transaction.tags x.
Proof.
  unfold apply_rule. destruct (fires rule x); [|done].
  rewrite add_tags_tags. destruct (categorizable uo x); by destruct x.
Qed.

Lemma apply_rule_not_firing (uo : bool) (x : Transaction.t) (rule : Rule.t) :
  fires rule x = false -> apply_rule uo x rule = x.
Proof. intros H. unfold apply_rule. by rewrite H. Qed.

(** ** Sets of tags *)

Lemma add_elem (s : list string) (x y : string) :
  y ∈ JS.add s x <-> y ∈ s \/ y = x.
Proof.
  unfold JS.add, JS.has. case_bool_decide as Hx.
  - split; [by left | intros [H | ->]; done].
  - by rewrite elem_of_app, list_elem_of_singleton.
Qed.

(** Adding an element that is present changes nothing. *)
Lemma add_present (s : list string) (x : string) : x ∈ s -> JS.add s x = s.
Proof. intros H. unfold JS.add, JS.has. by rewrite bool_decide_eq_true_2. Qed.

Lemma add_NoDup (s : list string) (x : string) : NoDup s -> NoDup (JS.add s x).
Proof.
  intros H. unfold JS.add, JS.has. case_bool_decide as Hx; [done|].
  apply NoDup_app. split_and!; [done | | apply NoDup_singleton].
  intros y Hy ->%list_elem_of_singleton. contradiction.
Qed.

Lemma fold_add_elem (l s : list string) (y : string) :
  y ∈ fold_left JS.add l s <-> y ∈ s \/ y ∈ l.
Proof.
  revert s. induction l as [|x l IH]; intros s; simpl.
  - rewrite elem_of_nil. split; [by left | by intros [H | []]].
  - rewrite IH, add_elem, elem_of_cons. split.
    + intros [[H | H] | H]; [by left | by right; left | by right; right].
    + intros [H | [H | H]]; [by left; left | by left; right | by right].
Qed.

Lemma fold_add_present (l s : list string) :
  (forall x, x ∈ l -> x ∈ s) -> fold_left JS.add l s = s.
Proof.
  induction l as [|x l IH]; intros H; simpl; [done|].
  rewrite add_present by (apply H; left).
  apply IH. intros y Hy. apply H. by right.
Qed.

Lemma fold_add_NoDup (l s : list string) :
  NoDup s -> NoDup (fold_left JS.add l s).
Proof.
  revert s. induction l as [|x l IH]; intros s H; simpl; [done|].
  by apply IH, add_NoDup.
Qed.

Lemma fold_add_set (l s : list string) :
  list_to_set (fold_left JS.add l s) =@{gset string} list_to_set s ∪ list_to_set l.
Proof.
  apply set_eq. intros y.
  rewrite elem_of_union, !elem_of_list_to_set. apply fold_add_elem.
Qed.

Lemma elem_of_tag_set (x : Transaction.t) (tag : string) :
  tag ∈ tag_set x <-> tag ∈ Transaction.tags x.
Proof. unfold tag_set. apply elem_of_list_to_set. Qed.

Lemma elem_of_firing (rules : list Rule.t) (x : Transaction.t) (rule : Rule.t) :
  rule ∈ firing rules x <-> rule ∈ rules /\ fires rule x = true.
Proof. unfold firing. rewrite !list_elem_of_In. apply List.filter_In. Qed.

Lemma elem_of_firing_tags (rules : list Rule.t) (x : Transaction.t) (tag : string) :
  tag ∈ firing_tags rules x <->
  exists rule, rule ∈ rules /\ fires rule x = true /\ tag ∈ Rule.tag rule.
Proof.
  unfold firing_tags. rewrite elem_of_union_list. split.
  - intros [X [HX Htag]]. apply list_elem_of_fmap in HX as [rule [-> Hr]].
    apply elem_of_firing in Hr as [Hr Hf].
    exists rule. by rewrite elem_of_list_to_set in Htag.
  - intros [rule (Hr & Hf & Htag)].
    exists (list_to_set (Rule.tag rule)). split.
    + apply list_elem_of_fmap. exists rule. split; [done|].
      by apply elem_of_firing.
    + by apply elem_of_list_to_set.
Qed.

Lemma firing_tags_cons (rule : Rule.t) (rules : list Rule.t) (x : Transaction.t) :
  firing_tags (rule :: rules) x =
  if fires rule x then list_to_set (Rule.tag rule) ∪ firing_tags rules x
  else firing_tags rules x.
Proof. unfold firing_tags, firing. simpl. by destruct (fires rule x). Qed.

(** The order of the rules does not matter for the tags they bring. *)
Lemma firing_tags_perm (rules rules' : list Rule.t) (x : Transaction.t) :
  rules ≡ₚ rules' -> firing_tags rules x = firing_tags rules' x.
Proof.
  intros Hp. apply set_eq. intros tag. rewrite !elem_of_firing_tags.
  by setoid_rewrite Hp.
Qed.

Lemma apply_rule_tag_set (uo : bool) (x : Transaction.t) (rule : Rule.t) :
  tag_set (apply_rule uo x rule) =
  if fires rule x then tag_set x ∪ list_to_set (Rule.tag rule) else tag_set x.
Proof.
  unfold tag_set. rewrite apply_rule_tags.
  destruct (fires rule x); [apply fold_add_set | done].
Qed.

(** The tags after the inner loop: the initial ones and those of every
    firing rule. *)
Lemma apply_rules_tag_set (uo : bool) (rules : list Rule.t) (x : Transaction.t) :
  tag_set (apply_rules uo rules x) = tag_set x ∪ firing_tags rules x.
Proof.
  revert x. induction rules as [|rule rules IH]; intros x; simpl.
  - unfold firing_tags. simpl. by rewrite (right_id_L ∅ (∪)).
  - rewrite IH, apply_rule_tag_set, firing_tags_cons.
    unfold firing_tags at 1. rewrite firing_apply_rule.
    fold (firing_tags rules x).
    destruct (fires rule x); [by rewrite (assoc_L (∪)) | done].
Qed.

Lemma apply_rules_NoDup (uo : bool) (rules : list Rule.t) (x : Transaction.t) :
  NoDup (Transaction.tags x) -> NoDup (Transaction.tags (apply_rules uo rules x)).
Proof.
  revert x. induction rules as [|rule rules IH]; intros x H; simpl; [done|].
  apply IH. rewrite apply_rule_tags.
  destruct (fires rule x); [by apply fold_add_NoDup | done].
Qed.

(** ** The categorization gate *)

(** Once the gate is closed for an object it stays closed, and neither
    [category] nor [categorized] changes any more. *)
Lemma closed_apply_rule (uo : bool) (x : Transaction.t) (rule : Rule.t) :
  categorizable uo x = false ->
  Transaction.category (apply_rule uo x rule) = Transaction.category x /\
  Transaction.categorized (apply_rule uo x rule) = Transaction.categorized x.
Proof.
  intros H. rewrite apply_rule_category, apply_rule_categorized, H.
  by rewrite andb_false_r.
Qed.

Lemma closed_apply_rules (uo : bool) (rules : list Rule.t) (x : Transaction.t) :
  categorizable uo x = false ->
  Transaction.category (apply_rules uo rules x) = Transaction.category x /\
  Transaction.categorized (apply_rules uo rules x) = Transaction.categorized x.
Proof.
  revert x. induction rules as [|rule rules IH]; intros x H; simpl; [done|].
  destruct (closed_apply_rule uo x rule H) as [Hc Hd].
  destruct (IH (apply_rule uo x rule)) as [Hc' Hd'].
  - unfold categorizable in *. by rewrite Hc, Hd.
  - split; congruence.
Qed.

Lemma closed_stays (uo : bool) (rules : list Rule.t) (x : Transaction.t) :
  categorizable uo x = false -> categorizable uo (apply_rules uo rules x) = false.
Proof.
  intros H. destruct (closed_apply_rules uo rules x H) as [Hc Hd].
  unfold categorizable in *. by rewrite Hc, Hd.
Qed.

(** A firing rule closes the gate. *)
Lemma fires_closes (uo : bool) (x : Transaction.t) (rule : Rule.t) :
  fires rule x = true -> categorizable uo (apply_rule uo x rule) = false.
Proof.
  intros Hf. destruct (categorizable uo x) eqn:Hg.
  - unfold categorizable at 1.
    by rewrite apply_rule_categorized, Hf, Hg.
  - by apply (closed_stays uo [rule]).
Qed.

Lemma open_fires (uo : bool) (x : Transaction.t) (rule : Rule.t) :
  fires rule x = true -> categorizable uo x = true ->
  Transaction.category (apply_rule uo x rule) = Rule.category rule /\
  Transaction.categorized (apply_rule uo x rule) = true.
Proof.
  intros Hf Hg. by rewrite apply_rule_category, apply_rule_categorized, Hf, Hg.
Qed.

Lemma none_fires (uo : bool) (rules : list Rule.t) (x : Transaction.t) :
  (forall rule, rule ∈ rules -> fires rule x = false) ->
  apply_rules uo rules x = x.
Proof.
  induction rules as [|rule rules IH]; intros H; simpl; [done|].
  rewrite apply_rule_not_firing by (apply H; left).
  apply IH. intros r Hr. apply H. by right.
Qed.

Lemma apply_rules_app (uo : bool) (pre post : list Rule.t) (x : Transaction.t) :
  apply_rules uo (pre ++ post) x = apply_rules uo post (apply_rules uo pre x).
Proof. apply fold_left_app. Qed.

(** ** Running the inner loop again changes nothing *)

Lemma set_tags_same (x : Transaction.t) :
  Transaction.set_tags (Transaction.tags x) x = x.
Proof. by destruct x. Qed.

(** A rule that fires on an object whose gate is closed and which
    already carries the rule's tags leaves the object as it is. *)
Lemma apply_rule_settled (uo : bool) (x : Transaction.t) (rule : Rule.t) :
  categorizable uo x = false ->
  (forall tag, tag ∈ Rule.tag rule -> tag ∈ Transaction.tags x) ->
  apply_rule uo x rule = x.
Proof.
  intros Hg Ht. unfold apply_rule. destruct (fires rule x); [|done].
  rewrite Hg. unfold add_tags. rewrite fold_add_present by done.
  apply set_tags_same.
Qed.

Lemma apply_rules_settled (uo : bool) (rules : list Rule.t) (x : Transaction.t) :
  (forall rule, rule ∈ rules -> fires rule x = true ->
     categorizable uo x = false /\
     forall tag, tag ∈ Rule.tag rule -> tag ∈ Transaction.tags x) ->
  apply_rules uo rules x = x.
Proof.
  induction rules as [|rule rules IH]; intros H; simpl; [done|].
  assert (apply_rule uo x rule = x) as ->.
  { destruct (fires rule x) eqn:Hf; [|by apply apply_rule_not_firing].
    destruct (H rule) as [Hg Ht]; [by left | done |].
    by apply apply_rule_settled. }
  apply IH. intros r Hr. apply H. by right.
Qed.

(** After the inner loop, every rule that fires finds the gate closed
    and its tags present. *)
Lemma apply_rules_reaches_settled (uo : bool) (rules : list Rule.t)
    (x : Transaction.t) (rule : Rule.t) :
  rule ∈ rules -> fires rule x = true ->
  categorizable uo (apply_rules uo rules x) = false /\
  forall tag, tag ∈ Rule.tag rule -> tag ∈ Transaction.tags (apply_rules uo rules x).
Proof.
  intros Hr Hf. split.
  - apply list_elem_of_split in Hr as (pre & post & ->).
    rewrite apply_rules_app. simpl.
    apply closed_stays, fires_closes.
    by rewrite fires_apply_rules.
  - intros tag Htag. apply elem_of_tag_set.
    rewrite apply_rules_tag_set, elem_of_union. right.
    apply elem_of_firing_tags. by exists rule.
Qed.

Lemma apply_rules_idempotent (uo : bool) (rules : list Rule.t) (x : Transaction.t) :
  apply_rules uo rules (apply_rules uo rules x) = apply_rules uo rules x.
Proof.
  apply apply_rules_settled. intros rule Hr Hf.
  rewrite fires_apply_rules in Hf.
  by apply apply_rules_reaches_settled.
Qed.

(** ** The outer loop *)

Lemma transaction_loop_spec (rules : list Rule.t) (uo : bool) (ls : list ref)
    (st : store * list ref) (l : ref) :
  fst (fold_left (transaction_body rules uo) ls st) l =
    (if bool_decide (l ∈ ls) then apply_rules uo rules (fst st l) else fst st l) /\
  snd (fold_left (transaction_body rules uo) ls st) = (snd st ++ ls)%list.
Proof.
  revert st. induction ls as [|a ls IH]; intros st; simpl.
  - by rewrite app_nil_r.
  - destruct (IH (transaction_body rules uo st a)) as [-> ->].
    split; [|unfold transaction_body; cbn [snd]; by rewrite <- app_assoc].
    unfold transaction_body. cbn [fst]. rewrite rule_loop_spec.
    destruct (Nat.eqb l a) eqn:E.
    + apply Nat.eqb_eq in E as ->.
      rewrite (bool_decide_eq_true_2 (a ∈ a :: ls)) by left.
      case_bool_decide; [apply apply_rules_idempotent | done].
    + apply Nat.eqb_neq in E.
      case_bool_decide as H1; case_bool_decide as H2; try done.
      * exfalso. apply H2. by right.
      * apply elem_of_cons in H2 as [? | ?]; done.
Qed.

(** What [runRules] leaves in the store: every object of the collection
    has been through the inner loop, every other object is untouched. *)
Lemma runRules_store (rules : list Rule.t) (m : TransactionMap) (uo : bool)
    (h : store) (l : ref) :
  fst (runRules rules m uo h) l =
  if bool_decide (l ∈ values m) then apply_rules uo rules (h l) else h l.
Proof. unfold runRules. apply transaction_loop_spec. Qed.

Lemma runRules_in (rules : list Rule.t) (m : TransactionMap) (uo : bool)
    (h : store) (l : ref) :
  l ∈ values m -> fst (runRules rules m uo h) l = apply_rules uo rules (h l).
Proof. intros H. by rewrite runRules_store, bool_decide_eq_true_2. Qed.

(** The returned array holds the objects of the collection, in order. *)
Lemma runRules_result (rules : list Rule.t) (m : TransactionMap) (uo : bool)
    (h : store) :
  snd (runRules rules m uo h) = values m.
Proof. unfold runRules. apply transaction_loop_spec. exact 0. Qed.

(** ** The projection *)

Lemma scrape_loop_spec (h : store) (txns : list ref) (acc : list (list cell)) :
  fold_left (fun tagList txn => (tagList ++ [[tagArray (h txn)]])%list) txns acc =
  (acc ++ map (fun txn => [tagArray (h txn)]) txns)%list.
Proof.
  revert acc. induction txns as [|txn txns IH]; intros acc; simpl.
  - by rewrite app_nil_r.
  - by rewrite IH, <- app_assoc.
Qed.

Lemma scrapeTags_map (h : store) (txns : list ref) :
  scrapeTags h txns = map (fun txn => [tagArray (h txn)]) txns.
Proof. unfold scrapeTags. by rewrite scrape_loop_spec. Qed.

(** ** The amount filter *)

Lemma matchAmount_policy (rule : Rule.t) (n : JS.number) :
  Rule.matchAmount rule n = Some (bound_policy (lowerBound rule) (upperBound rule) n).
Proof.
  unfold Rule.matchAmount, lowerBound, upperBound, bound_policy.
  destruct (Pattern.exec ">" (Rule.amount rule)) as [lb|];
    destruct (Pattern.exec "<" (Rule.amount rule)) as [ub|]; simpl.
  all: repeat case_bool_decide; simpl; try done.
  all: try match goal with H : ~ is_Some (Some _) |- _ => by destruct H end.
  all: match goal with H : is_Some None |- _ => by destruct H end.
Qed.

(** No number is below or above itself. *)
Lemma lt_irrefl (x : JS.number) : JS.lt x x = false.
Proof.
  unfold JS.lt, SFltb.
  destruct x as [s|s| |s m e]; simpl; try done; try by destruct s.
  rewrite Z.compare_refl.
  destruct s; simpl; by rewrite Pos.compare_cont_refl.
Qed.

Lemma gt_irrefl (x : JS.number) : JS.gt x x = false.
Proof. apply lt_irrefl. Qed.

(** A pattern finds no match exactly when its operator is nowhere
    followed by a character of the class. *)
Lemma exec_None (op : ascii) (s : string) :
  Pattern.exec op s = None <->
  forall pre c post, s = pre +:+ String op (String c post) ->
                     Pattern.bound_char c = false.
Proof.
  induction s as [|a s IH]; simpl.
  - split; [|done]. intros _ pre c post H. by destruct pre.
  - destruct (Ascii.eqb a op) eqn:E.
    + apply Ascii.eqb_eq in E as ->.
      destruct s as [|b s'].
      * split; [|done]. intros _ pre c post H.
        destruct pre as [|? [|? ?]]; discriminate H.
      * cbn [JS.take_while]. destruct (Pattern.bound_char b) eqn:Eb.
        -- split; [done|]. intros H.
           specialize (H "" b s' eq_refl). congruence.
        -- rewrite IH. split.
           ++ intros H pre c post Heq. destruct pre as [|p pre].
              ** simpl in Heq. by injection Heq as <- <-.
              ** simpl in Heq. injection Heq as _ Heq. by eapply H.
           ++ intros H pre c post Heq.
              apply (H (String op pre) c post). simpl. by rewrite Heq.
    + rewrite IH. split.
      * intros H pre c post Heq. destruct pre as [|p pre].
        -- simpl in Heq. injection Heq as -> _.
           by rewrite Ascii.eqb_refl in E.
        -- simpl in Heq. injection Heq as _ Heq. by eapply H.
      * intros H pre c post Heq.
        apply (H (String a pre) c post). simpl. by rewrite Heq.
Qed.

(** * The claims *)

(** ** Sample rules and objects *)

Lemma sample_in_collection : 0 ∈ values [("id", 0)].
Proof. by left. Qed.

(** ** C1: first match wins *)

(** C1, as stated, does not hold: called with [uncategorizedOnly = true]
    on a freshly constructed transaction whose category cell is not
    empty, [runRules] keeps the old category, although a rule fires. *)
Lemma first_match_wins_counterexample :
  ~ (forall (uncategorizedOnly : bool) (pre post : list Rule.t) (rule : Rule.t)
            (m : TransactionMap) (h : store) (l : ref),
        l ∈ values m ->
        Transaction.categorized (h l) = false ->
        (forall r, r ∈ pre -> fires r (h l) = false) ->
        fires rule (h l) = true ->
        Transaction.category
          (fst (runRules (pre ++ rule :: post) m uncategorizedOnly h) l)
        = Rule.category rule).
Proof.
  intros H.
  specialize (H true [] [] (category_rule "A" "") [("id", 0)]
                (store_of (transaction_of "CAFE LATTE" "Food" [] "4.50")) 0
                sample_in_collection eq_refl).
  assert (Hpre : forall r : Rule.t,
             r ∈ [] ->
             fires r (store_of (transaction_of "CAFE LATTE" "Food" [] "4.50") 0) = false).
  { intros r Hr. by apply elem_of_nil in Hr. }
  specialize (H Hpre eq_refl). vm_compute in H. discriminate H.
Qed.

(** C1 (amended): on an object of the collection with [categorized]
    false, when [uncategorizedOnly] is false or the object's category is
    the empty string, the category after [runRules] is the category of
    the first rule of the list that fires, whatever rules follow it and
    whatever that category is (the empty string included), and the
    object is then marked as categorized. *)
Theorem first_match_wins (uncategorizedOnly : bool) (pre post : list Rule.t)
    (rule : Rule.t) (m : TransactionMap) (h : store) (l : ref) :
  l ∈ values m ->
  Transaction.categorized (h l) = false ->
  uncategorizedOnly = false \/ Transaction.category (h l) = "" ->
  (forall r, r ∈ pre -> fires r (h l) = false) ->
  fires rule (h l) = true ->
  Transaction.category
    (fst (runRules (pre ++ rule :: post) m uncategorizedOnly h) l)
  = Rule.category rule /\
  Transaction.categorized
    (fst (runRules (pre ++ rule :: post) m uncategorizedOnly h) l)
  = true.
Proof.
  intros Hl Hfresh Hmode Hpre Hf.
  rewrite runRules_in by done.
  rewrite apply_rules_app, (none_fires _ pre) by done. simpl.
  assert (categorizable uncategorizedOnly (h l) = true) as Hopen.
  { unfold categorizable. rewrite Hfresh.
    destruct Hmode as [-> | ->]; [done | by destruct uncategorizedOnly]. }
  destruct (open_fires uncategorizedOnly (h l) rule Hf Hopen) as [Hc Hd].
  destruct (closed_apply_rules uncategorizedOnly post
              (apply_rule uncategorizedOnly (h l) rule)) as [Hc' Hd'].
  { by apply fires_closes. }
  split; congruence.
Qed.

(** An instance of C1: the first rule does not fire (the amount is not
    above 100), the second fires and has the empty category, the third
    fires too and would assign ["B"]. *)
Lemma first_match_wins_witness :
  Transaction.category
    (fst (runRules ([amount_rule ">100"] ++ category_rule "" "x" :: [category_rule "B" "y"])
            [("id", 0)] false
            (store_of (transaction_of "CAFE LATTE" "Old" [] "4.50"))) 0)
  = Rule.category (category_rule "" "x") /\
  Transaction.categorized
    (fst (runRules ([amount_rule ">100"] ++ category_rule "" "x" :: [category_rule "B" "y"])
            [("id", 0)] false
            (store_of (transaction_of "CAFE LATTE" "Old" [] "4.50"))) 0)
  = true.
Proof.
  apply (first_match_wins false [amount_rule ">100"] [category_rule "B" "y"]
           (category_rule "" "x") [("id", 0)]
           (store_of (transaction_of "CAFE LATTE" "Old" [] "4.50")) 0).
  - by left.
  - reflexivity.
  - left. reflexivity.
  - intros r Hr. apply list_elem_of_singleton in Hr. subst r.
    vm_compute. reflexivity.
  - vm_compute. reflexivity.
Defined.

(** ** C2: tags accumulate over every firing rule *)

(** C2: for an object of the collection, whatever [uncategorizedOnly]
    and [categorized] are, the tag set after [runRules] is the initial
    tag set united with the tags of all firing rules; every tag of every
    firing rule is in it; it is the same set for every reordering of the
    rule list; and no element is listed twice if none was before. *)
Theorem tag_union (rules : list Rule.t) (m : TransactionMap)
    (uncategorizedOnly : bool) (h : store) (l : ref) :
  l ∈ values m ->
  tag_set (fst (runRules rules m uncategorizedOnly h) l)
    = tag_set (h l) ∪ firing_tags rules (h l) /\
  (forall rule tag,
      rule ∈ rules -> fires rule (h l) = true -> tag ∈ Rule.tag rule ->
      tag ∈ Transaction.tags (fst (runRules rules m uncategorizedOnly h) l)) /\
  (forall rules',
      rules ≡ₚ rules' ->
      tag_set (fst (runRules rules' m uncategorizedOnly h) l)
        = tag_set (fst (runRules rules m uncategorizedOnly h) l)) /\
  (NoDup (Transaction.tags (h l)) ->
   NoDup (Transaction.tags (fst (runRules rules m uncategorizedOnly h) l))).
Proof.
  intros Hl. rewrite runRules_in by done. split_and!.
  - apply apply_rules_tag_set.
  - intros rule tag Hr Hf Htag.
    by apply (apply_rules_reaches_settled uncategorizedOnly rules (h l) rule).
  - intros rules' Hp. rewrite runRules_in by done.
    rewrite !apply_rules_tag_set. f_equal. symmetry. by apply firing_tags_perm.
  - apply apply_rules_NoDup.
Qed.

(** An instance of C2: two firing rules with tags x and y, on an object
    that is already categorized. *)
Lemma tag_union_witness :
  let rules := [category_rule "A" "x"; category_rule "B" "y,x"] in
  let h := store_of (Transaction.set_categorized true
                       (transaction_of "CAFE LATTE" "Old" ["t"] "4.50")) in
  tag_set (fst (runRules rules [("id", 0)] true h) 0)
    = tag_set (h 0) ∪ firing_tags rules (h 0) /\
  (forall rule tag,
      rule ∈ rules -> fires rule (h 0) = true -> tag ∈ Rule.tag rule ->
      tag ∈ Transaction.tags (fst (runRules rules [("id", 0)] true h) 0)) /\
  (forall rules',
      rules ≡ₚ rules' ->
      tag_set (fst (runRules rules' [("id", 0)] true h) 0)
        = tag_set (fst (runRules rules [("id", 0)] true h) 0)) /\
  (NoDup (Transaction.tags (h 0)) ->
   NoDup (Transaction.tags (fst (runRules rules [("id", 0)] true h) 0))).
Proof.
  intros rules h. apply (tag_union rules [("id", 0)] true h 0). by left.
Defined.

(** The tags of the instance above, in insertion order. *)
Example tag_union_sample :
  Transaction.tags
    (fst (runRules [category_rule "A" "x"; category_rule "B" "y,x"] [("id", 0)] true
            (store_of (Transaction.set_categorized true
                         (transaction_of "CAFE LATTE" "Old" ["t"] "4.50")))) 0)
  = ["t"; "x"; "y"].
Proof. vm_compute. reflexivity. Qed.

(** ** C3: the bound policy of matchAmount *)

(** C3: [matchAmount] always returns a boolean, which is [true] when
    neither pattern matches, [n > L] with only a lower bound [L], [n < U]
    with only an upper bound [U], and [n > L && n < U] with both; a
    number is neither above nor below itself, so both bounds are
    exclusive; and for the filter [>100<200] the answers at 150, 100, 200
    and 250 are true, false, false and false. *)
Theorem matchAmount_bounds :
  (forall (rule : Rule.t) (n : JS.number),
      (lowerBound rule = None -> upperBound rule = None ->
       Rule.matchAmount rule n = Some true) /\
      (forall L, lowerBound rule = Some L -> upperBound rule = None ->
                 Rule.matchAmount rule n = Some (JS.gt n L)) /\
      (forall U, lowerBound rule = None -> upperBound rule = Some U ->
                 Rule.matchAmount rule n = Some (JS.lt n U)) /\
      (forall L U, lowerBound rule = Some L -> upperBound rule = Some U ->
                   Rule.matchAmount rule n = Some (JS.gt n L && JS.lt n U))) /\
  (forall x : JS.number, JS.gt x x = false /\ JS.lt x x = false) /\
  lowerBound (amount_rule ">100<200") = Some (JS.parseFloat "100") /\
  upperBound (amount_rule ">100<200") = Some (JS.parseFloat "200") /\
  Rule.matchAmount (amount_rule ">100<200") (JS.parseFloat "150") = Some true /\
  Rule.matchAmount (amount_rule ">100<200") (JS.parseFloat "100") = Some false /\
  Rule.matchAmount (amount_rule ">100<200") (JS.parseFloat "200") = Some false /\
  Rule.matchAmount (amount_rule ">100<200") (JS.parseFloat "250") = Some false.
Proof.
  split; [|split]; [| |split_and!; vm_compute; reflexivity].
  - intros rule n. rewrite matchAmount_policy.
    split_and!; intros; by repeat match goal with H : _ = _ |- _ => rewrite H end.
  - intros x. split; [apply gt_irrefl | apply lt_irrefl].
Qed.

(** ** C4: a second pass changes nothing *)

(** C4: after [runRules] with [uncategorizedOnly = false], a second call
    on the same objects leaves every object as the first call left it,
    in particular its category and its tags, and returns the same array. *)
Theorem runRules_twice (rules : list Rule.t) (m : TransactionMap) (h : store) (l : ref) :
  Transaction.category
    (fst (runRules rules m false (fst (runRules rules m false h))) l)
  = Transaction.category (fst (runRules rules m false h) l) /\
  Transaction.tags
    (fst (runRules rules m false (fst (runRules rules m false h))) l)
  = Transaction.tags (fst (runRules rules m false h) l) /\
  fst (runRules rules m false (fst (runRules rules m false h))) l
  = fst (runRules rules m false h) l /\
  snd (runRules rules m false (fst (runRules rules m false h)))
  = snd (runRules rules m false h).
Proof.
  assert (fst (runRules rules m false (fst (runRules rules m false h))) l
          = fst (runRules rules m false h) l) as Heq.
  { rewrite !runRules_store.
    case_bool_decide; [apply apply_rules_idempotent | done]. }
  rewrite Heq, !runRules_result. done.
Qed.

(** ** C5: the gate of uncategorizedOnly *)

(** C5: with [uncategorizedOnly = true], an object of the collection
    whose category is not the empty string keeps its category, while its
    tag set still receives the tags of every firing rule; and in any
    mode, a turn of the inner loop assigns [category] and [categorized]
    exactly when the rule fires, the object is not yet categorized, and
    [uncategorizedOnly] is false or the category is the empty string;
    otherwise both fields keep their values. A whole pass changes the
    category only under the same condition on the initial object. *)
Theorem uncategorizedOnly_gate :
  (forall (rules : list Rule.t) (m : TransactionMap) (h : store) (l : ref),
      l ∈ values m ->
      Transaction.category (h l) <> "" ->
      Transaction.category (fst (runRules rules m true h) l)
        = Transaction.category (h l) /\
      tag_set (fst (runRules rules m true h) l)
        = tag_set (h l) ∪ firing_tags rules (h l)) /\
  (forall (uncategorizedOnly : bool) (l : ref) (h : store) (rule : Rule.t),
      (fires rule (h l) = true /\
       Transaction.categorized (h l) = false /\
       (uncategorizedOnly = false \/ Transaction.category (h l) = "") ->
       Transaction.category (rule_body uncategorizedOnly l h rule l)
         = Rule.category rule /\
       Transaction.categorized (rule_body uncategorizedOnly l h rule l) = true) /\
      (~ (fires rule (h l) = true /\
          Transaction.categorized (h l) = false /\
          (uncategorizedOnly = false \/ Transaction.category (h l) = "")) ->
       Transaction.category (rule_body uncategorizedOnly l h rule l)
         = Transaction.category (h l) /\
       Transaction.categorized (rule_body uncategorizedOnly l h rule l)
         = Transaction.categorized (h l))) /\
  (forall (uncategorizedOnly : bool) (rules : list Rule.t) (m : TransactionMap)
          (h : store) (l : ref),
      Transaction.category (fst (runRules rules m uncategorizedOnly h) l)
        <> Transaction.category (h l) ->
      Transaction.categorized (h l) = false /\
      (uncategorizedOnly = false \/ Transaction.category (h l) = "")).
Proof.
  assert (Hgate : forall uo x,
             categorizable uo x = true <->
             Transaction.categorized x = false /\
             (uo = false \/ Transaction.category x = "")).
  { intros uo x. unfold categorizable.
    destruct (Transaction.categorized x); simpl.
    - split; [done | by intros [? _]].
    - destruct uo; simpl.
      + rewrite String.eqb_eq.
        split; [intros H; split; [done | by right] | by intros [_ [? | ?]]].
      + split; [intros _; split; [done | by left] | done]. }
  split_and!.
  - intros rules m h l Hl Hcat. rewrite runRules_in by done. split.
    + apply closed_apply_rules. apply not_true_is_false.
      rewrite Hgate. by intros [_ [? | ?]].
    + apply apply_rules_tag_set.
  - intros uo l h rule. rewrite rule_body_spec, Nat.eqb_refl.
    rewrite apply_rule_category, apply_rule_categorized. split.
    + intros (Hf & Hg). apply Hgate in Hg. by rewrite Hf, Hg.
    + intros Hn. destruct (fires rule (h l)) eqn:Hf; [|done].
      destruct (categorizable uo (h l)) eqn:Hg; [|done].
      exfalso. apply Hn. split; [done|]. by apply Hgate.
  - intros uo rules m h l Hne. apply Hgate.
    destruct (categorizable uo (h l)) eqn:Hg; [done|].
    exfalso. apply Hne. rewrite runRules_store.
    case_bool_decide; [|done]. by apply closed_apply_rules.
Qed.

(** An instance of C5: an object with category ["Old"] meets a rule that
    fires; its category stays, the rule's tag arrives. *)
Lemma uncategorizedOnly_gate_witness :
  Transaction.category
    (fst (runRules [category_rule "A" "x"] [("id", 0)] true
            (store_of (transaction_of "CAFE LATTE" "Old" [] "4.50"))) 0)
  = "Old" /\
  tag_set
    (fst (runRules [category_rule "A" "x"] [("id", 0)] true
            (store_of (transaction_of "CAFE LATTE" "Old" [] "4.50"))) 0)
  = tag_set (transaction_of "CAFE LATTE" "Old" [] "4.50")
    ∪ firing_tags [category_rule "A" "x"] (transaction_of "CAFE LATTE" "Old" [] "4.50").
Proof.
  apply (proj1 uncategorizedOnly_gate [category_rule "A" "x"] [("id", 0)]
           (store_of (transaction_of "CAFE LATTE" "Old" [] "4.50")) 0).
  - by left.
  - discriminate.
Defined.

(** ** C6: amount filters outside the literal forms *)

(** C6, as stated, does not hold: the filter [>-] is not of a literal
    form and neither side of it yields a number, yet [matchAmount]
    answers false: the pattern matches, the captured text [-] reads as
    NaN, and no number is above NaN. *)
Lemma malformed_amount_counterexample :
  ~ (forall (amount : string) (n : JS.number),
        literal_form amount = false ->
        parseable_bound ">" amount = None ->
        parseable_bound "<" amount = None ->
        Rule.matchAmount (amount_rule amount) n = Some true).
Proof.
  intros H.
  specialize (H ">-" (JS.parseFloat "5") eq_refl eq_refl eq_refl).
  vm_compute in H. discriminate H.
Qed.

(** C6 (amended): [matchAmount] returns a boolean for every filter and
    every number; a side whose pattern finds no match (its operator is
    nowhere followed by a character among [-], [.] and the digits) is
    treated as having no bound, so when neither pattern matches the
    answer is true for every number. *)
Theorem unmatched_amount (rule : Rule.t) (n : JS.number) :
  (exists b : bool, Rule.matchAmount rule n = Some b) /\
  (Pattern.exec ">" (Rule.amount rule) = None ->
   Pattern.exec "<" (Rule.amount rule) = None ->
   Rule.matchAmount rule n = Some true) /\
  (Pattern.exec ">" (Rule.amount rule) = None ->
   forall U, upperBound rule = Some U -> Rule.matchAmount rule n = Some (JS.lt n U)) /\
  (Pattern.exec "<" (Rule.amount rule) = None ->
   forall L, lowerBound rule = Some L -> Rule.matchAmount rule n = Some (JS.gt n L)) /\
  (forall op : ascii,
      Pattern.exec op (Rule.amount rule) = None <->
      forall pre c post,
        Rule.amount rule = pre +:+ String op (String c post) ->
        Pattern.bound_char c = false).
Proof.
  rewrite matchAmount_policy. split_and!.
  - by eexists.
  - intros Hl Hu. unfold lowerBound, upperBound. by rewrite Hl, Hu.
  - intros Hl U ->. unfold lowerBound. by rewrite Hl.
  - intros Hu L ->. unfold upperBound. by rewrite Hu.
  - intros op. apply exec_None.
Qed.

(** An instance of C6: the filter [>=100] bounds nothing. *)
Lemma unmatched_amount_witness :
  Rule.matchAmount (amount_rule ">=100") (JS.parseFloat "5") = Some true.
Proof.
  apply (proj1 (proj2 (unmatched_amount (amount_rule ">=100") (JS.parseFloat "5")))).
  - vm_compute. reflexivity.
  - vm_compute. reflexivity.
Defined.

(** ** C7: the projection keeps every row, in order *)

(** C7: [scrapeTags] returns as many rows as it is given transactions;
    row [i] belongs to transaction [i]; and when that transaction has a
    tag, the row is the single cell holding its tags joined by commas. *)
Theorem scrapeTags_rows (h : store) (txns : list ref) :
  length (scrapeTags h txns) = length txns /\
  (forall i txn, txns !! i = Some txn ->
                 scrapeTags h txns !! i = Some [tagArray (h txn)]) /\
  (forall i txn, txns !! i = Some txn ->
                 Transaction.tags (h txn) <> [] ->
                 scrapeTags h txns !! i
                 = Some [Some (JS.join "," (Transaction.tags (h txn)))]) /\
  (forall i, txns !! i = None -> scrapeTags h txns !! i = None).
Proof.
  rewrite scrapeTags_map. split_and!.
  - apply length_map.
  - intros i txn Hi. by rewrite list_lookup_fmap, Hi.
  - intros i txn Hi Hne. rewrite list_lookup_fmap, Hi. simpl.
    unfold tagArray, JS.size. by destruct (Transaction.tags (h txn)).
  - intros i Hi. by rewrite list_lookup_fmap, Hi.
Qed.

(** A projection of three transactions. *)
Example scrapeTags_sample :
  scrapeTags
    (fun l => match l with
              | 0 => transaction_of "a" "" ["x"; "y"] "1"
              | 1 => transaction_of "b" "" [] "2"
              | _ => transaction_of "c" "" ["z"] "3"
              end)
    [2; 0; 1]
  = [[Some "z"]; [Some "x,y"]; [None]].
Proof. reflexivity. Qed.

(** ** C8: an empty filter matches everything *)

(** C8: each of the three text predicates is true on every input when
    its filter is the empty string, and otherwise is true exactly when
    the input contains the filter, character for character. *)
Theorem empty_filter_wildcard (rule : Rule.t) (testString : string) :
  (Rule.description rule = "" -> Rule.matchDescription rule testString = true) /\
  (Rule.description rule <> "" ->
   (Rule.matchDescription rule testString = true <->
    is_substring (Rule.description rule) testString)) /\
  (Rule.account rule = "" -> Rule.matchAccount rule testString = true) /\
  (Rule.account rule <> "" ->
   (Rule.matchAccount rule testString = true <->
    is_substring (Rule.account rule) testString)) /\
  (Rule.institution rule = "" -> Rule.matchInstitution rule testString = true) /\
  (Rule.institution rule <> "" ->
   (Rule.matchInstitution rule testString = true <->
    is_substring (Rule.institution rule) testString)).
Proof.
  unfold Rule.matchDescription, Rule.matchAccount, Rule.matchInstitution.
  split_and!.
  all: try (intros ->; reflexivity).
  all: intros Hne; apply String.eqb_neq in Hne; rewrite Hne; simpl;
    apply includes_spec.
Qed.

(** An instance of C8 with a filter that is not empty. *)
Lemma empty_filter_wildcard_witness :
  Rule.matchDescription (Rule.new "Food" "dining" "CAFE" "" "" ">0") "THE CAFE LATTE" = true
  <-> is_substring "CAFE" "THE CAFE LATTE".
Proof.
  apply (proj1 (proj2 (empty_filter_wildcard
                         (Rule.new "Food" "dining" "CAFE" "" "" ">0") "THE CAFE LATTE"))).
  discriminate.
Defined.

(** The comparison distinguishes upper and lower case. *)
Example matchDescription_case :
  Rule.matchDescription (Rule.new "Food" "dining" "CAFE" "" "" ">0") "the cafe latte" = false /\
  Rule.matchDescription (Rule.new "Food" "dining" "CAFE" "" "" ">0") "THE CAFE LATTE" = true.
Proof. split; reflexivity. Qed.

(** ** C9: the frame of the pass *)

(** C9: for every object, in the collection or not, and for every rule
    list and mode, [runRules] leaves all fields but [category],
    [categorized] and [tags] as they were. *)
Theorem runRules_frame (rules : list Rule.t) (m : TransactionMap)
    (uncategorizedOnly : bool) (h : store) (l : ref) :
  Transaction.date (fst (runRules rules m uncategorizedOnly h) l)
    = Transaction.date (h l) /\
  Transaction.description (fst (runRules rules m uncategorizedOnly h) l)
    = Transaction.description (h l) /\
  Transaction.fullDescription (fst (runRules rules m uncategorizedOnly h) l)
    = Transaction.fullDescription (h l) /\
  Transaction.account (fst (runRules rules m uncategorizedOnly h) l)
    = Transaction.account (h l) /\
  Transaction.accountNum (fst (runRules rules m uncategorizedOnly h) l)
    = Transaction.accountNum (h l) /\
  Transaction.institution (fst (runRules rules m uncategorizedOnly h) l)
    = Transaction.institution (h l) /\
  Transaction.month (fst (runRules rules m uncategorizedOnly h) l)
    = Transaction.month (h l) /\
  Transaction.week (fst (runRules rules m uncategorizedOnly h) l)
    = Transaction.week (h l) /\
  Transaction.checkNumber (fst (runRules rules m uncategorizedOnly h) l)
    = Transaction.checkNumber (h l) /\
  Transaction.amount (fst (runRules rules m uncategorizedOnly h) l)
    = Transaction.amount (h l) /\
  Transaction.transactionId (fst (runRules rules m uncategorizedOnly h) l)
    = Transaction.transactionId (h l) /\
  Transaction.address (fst (runRules rules m uncategorizedOnly h) l)
    = Transaction.address (h l).
Proof.
  rewrite runRules_store. case_bool_decide.
  - apply (apply_rules_frame uncategorizedOnly rules (h l)).
  - apply (same_frame_refl (h l)).
Qed.

(** ** C10: the cell of a transaction without tags *)

(** C10: for a transaction whose tag set is empty, the row holds the
    single cell [undefined], which is not the empty string; and every
    row of the output has exactly one cell. *)
Theorem scrapeTags_no_tags (h : store) (txns : list ref) :
  (forall i txn, txns !! i = Some txn ->
                 Transaction.tags (h txn) = [] ->
                 scrapeTags h txns !! i = Some [None] /\
                 scrapeTags h txns !! i <> Some [Some ""]) /\
  (forall row, row ∈ scrapeTags h txns -> length row = 1).
Proof.
  rewrite scrapeTags_map. split.
  - intros i txn Hi Hnil. rewrite list_lookup_fmap, Hi. simpl.
    unfold tagArray. rewrite Hnil. by split.
  - intros row Hrow. by apply list_elem_of_fmap in Hrow as [txn [-> _]].
Qed.

(** An instance of C10. *)
Lemma scrapeTags_no_tags_witness :
  scrapeTags (store_of (transaction_of "a" "" [] "1")) [7] !! 0 = Some [None] /\
  scrapeTags (store_of (transaction_of "a" "" [] "1")) [7] !! 0 <> Some [Some ""].
Proof.
  apply (proj1 (scrapeTags_no_tags (store_of (transaction_of "a" "" [] "1")) [7]) 0 7).
  - reflexivity.
  - reflexivity.
Defined.

(** * Further properties *)

(** ** Splitting and joining at commas *)

Lemma split_not_nil (c : ascii) (s : string) : JS.split c s <> [].
Proof.
  destruct s as [|a r]; simpl; [done|].
  destruct (Ascii.eqb a c); [done|]. by destruct (JS.split c r).
Qed.

Lemma join_cons (sep x : string) (l : list string) :
  l <> [] -> JS.join sep (x :: l) = x +:+ sep +:+ JS.join sep l.
Proof. by destruct l. Qed.

Lemma join_split (c : ascii) (s : string) :
  JS.join (String c "") (JS.split c s) = s.
Proof.
  induction s as [|a r IH]; [done|].
  cbn [JS.split]. destruct (Ascii.eqb a c) eqn:E.
  - apply Ascii.eqb_eq in E as ->.
    rewrite join_cons by apply split_not_nil. simpl. by rewrite IH.
  - pose proof (split_not_nil c r) as Hne.
    destruct (JS.split c r) as [|piece pieces]; [done|].
    destruct pieces as [|p ps]; simpl in *; by rewrite <- IH.
Qed.

Lemma split_pieces (c : ascii) (s piece : string) :
  piece ∈ JS.split c s -> contains_char c piece = false.
Proof.
  revert piece. induction s as [|a r IH]; intros piece; cbn [JS.split].
  - by intros ->%list_elem_of_singleton.
  - destruct (Ascii.eqb a c) eqn:E.
    + intros [-> | H]%elem_of_cons; [done | by apply IH].
    + pose proof (split_not_nil c r) as Hne.
      destruct (JS.split c r) as [|p ps]; [done|].
      intros [-> | H]%elem_of_cons.
      * simpl. rewrite E. apply IH. by left.
      * apply IH. by right.
Qed.

Lemma split_free (c : ascii) (p : string) :
  contains_char c p = false -> JS.split c p = [p].
Proof.
  induction p as [|a r IH]; simpl; [done|].
  intros [E H]%orb_false_elim. by rewrite E, IH.
Qed.

Lemma split_app (c : ascii) (p rest : string) :
  contains_char c p = false ->
  JS.split c (p +:+ String c rest) = p :: JS.split c rest.
Proof.
  induction p as [|a r IH]; simpl.
  - intros _. by rewrite Ascii.eqb_refl.
  - intros [E H]%orb_false_elim. by rewrite E, IH.
Qed.

Lemma split_join (c : ascii) (l : list string) :
  l <> [] ->
  (forall p, p ∈ l -> contains_char c p = false) ->
  JS.split c (JS.join (String c "") l) = l.
Proof.
  induction l as [|x l IH]; [done|]. intros _ H.
  destruct l as [|y l].
  - simpl. apply split_free, H. by left.
  - change (JS.join (String c "") (x :: y :: l))
      with (x +:+ String c (JS.join (String c "") (y :: l))).
    rewrite split_app by (apply H; left).
    rewrite IH; [done | done |]. intros p Hp. apply H. by right.
Qed.

(** ** Sets built from arrays *)

Lemma fold_add_fresh (l s : list string) :
  NoDup (s ++ l) -> fold_left JS.add l s = (s ++ l)%list.
Proof.
  revert s. induction l as [|x l IH]; intros s H; simpl.
  - by rewrite app_nil_r.
  - assert (x ∉ s) as Hx.
    { apply NoDup_app in H as (_ & H & _). intros Hin. apply (H x Hin). by left. }
    unfold JS.add at 2, JS.has. rewrite bool_decide_eq_false_2 by done.
    rewrite IH; rewrite <- app_assoc; done.
Qed.

Lemma new_Set_NoDup (l : list string) : NoDup (JS.new_Set l).
Proof. apply fold_add_NoDup, NoDup_nil_2. Qed.

Lemma elem_of_new_Set (l : list string) (x : string) : x ∈ JS.new_Set l <-> x ∈ l.
Proof.
  unfold JS.new_Set. rewrite fold_add_elem, elem_of_nil.
  split; [by intros [[] | H] | by right].
Qed.

Lemma new_Set_id (l : list string) : NoDup l -> JS.new_Set l = l.
Proof. intros H. unfold JS.new_Set. by rewrite fold_add_fresh. Qed.

Lemma elem_of_delete (s : list string) (x y : string) :
  y ∈ JS.delete s x <-> y ∈ s /\ y <> x.
Proof.
  unfold JS.delete. rewrite !list_elem_of_In, List.filter_In.
  by rewrite negb_true_iff, String.eqb_neq.
Qed.

Lemma delete_NoDup (s : list string) (x : string) : NoDup s -> NoDup (JS.delete s x).
Proof.
  induction 1 as [|y s Hy Hs IH]; simpl; [constructor|].
  destruct (String.eqb y x); simpl; [done|].
  constructor; [|done]. by intros [? _]%elem_of_delete.
Qed.

Lemma delete_absent (s : list string) (x : string) : x ∉ s -> JS.delete s x = s.
Proof.
  induction s as [|y s IH]; intros H; simpl; [done|].
  apply not_elem_of_cons in H as [Hne H].
  assert (String.eqb y x = false) as -> by (apply String.eqb_neq; congruence).
  simpl. f_equal. by apply IH.
Qed.

(** ** Tags read from a cell *)

Lemma elem_of_parse_tags (cell tag : string) :
  tag ∈ parse_tags cell <-> tag <> "" /\ tag ∈ JS.split "," cell.
Proof.
  unfold parse_tags. rewrite elem_of_delete, elem_of_new_Set.
  split; by intros [? ?].
Qed.

Lemma parse_tags_well_formed (cell : string) : well_formed_tags (parse_tags cell).
Proof.
  split.
  - apply delete_NoDup, new_Set_NoDup.
  - intros tag [Hne Hin]%elem_of_parse_tags. split; [done|].
    by apply (split_pieces "," cell).
Qed.

Lemma parse_tags_join (tags : list string) :
  well_formed_tags tags -> parse_tags (JS.join "," tags) = tags.
Proof.
  intros [Hnd Hwf]. unfold parse_tags. destruct tags as [|x l]; [done|].
  rewrite split_join; [| done | intros p Hp; by apply Hwf].
  rewrite new_Set_id by done. apply delete_absent.
  intros Hin. by destruct (Hwf "" Hin).
Qed.

(** ** The order of the tags *)

Lemma add_appends (s : list string) (x : string) :
  exists k, JS.add s x = (s ++ k)%list /\ forall t, t ∈ k -> t = x /\ t ∉ s.
Proof.
  unfold JS.add, JS.has. case_bool_decide as Hx.
  - exists []. split; [by rewrite app_nil_r | by intros t Ht%elem_of_nil].
  - exists [x]. split; [done|]. by intros t ->%list_elem_of_singleton.
Qed.

Lemma fold_add_appends (l s : list string) :
  exists k, fold_left JS.add l s = (s ++ k)%list /\
            forall t, t ∈ k -> t ∈ l /\ t ∉ s.
Proof.
  revert s. induction l as [|x l IH]; intros s; simpl.
  - exists []. split; [by rewrite app_nil_r | by intros t Ht%elem_of_nil].
  - destruct (add_appends s x) as (k1 & -> & H1).
    destruct (IH (s ++ k1)%list) as (k2 & -> & H2).
    exists (k1 ++ k2)%list. split; [by rewrite app_assoc|].
    intros t [Ht | Ht]%elem_of_app.
    + destruct (H1 t Ht) as [-> Hs]. split; [by left | done].
    + destruct (H2 t Ht) as [Hl Hs]. split; [by right|].
      intros Hin. apply Hs, elem_of_app. by left.
Qed.

Lemma apply_rules_appends (uo : bool) (rules : list Rule.t) (x : Transaction.t) :
  exists added,
    Transaction.tags (apply_rules uo rules x) = (Transaction.tags x ++ added)%list /\
    forall tag, tag ∈ added ->
                (tag ∉ Transaction.tags x) /\ tag ∈ firing_tags rules x.
Proof.
  revert x. induction rules as [|rule rules IH]; intros x; simpl.
  - exists []. split; [by rewrite app_nil_r | by intros t Ht%elem_of_nil].
  - destruct (IH (apply_rule uo x rule)) as (k2 & -> & H2).
    assert (exists k1,
               Transaction.tags (apply_rule uo x rule) = (Transaction.tags x ++ k1)%list /\
               forall t, t ∈ k1 -> (t ∉ Transaction.tags x) /\
                                   fires rule x = true /\ t ∈ Rule.tag rule)
      as (k1 & Hk1 & H1).
    { rewrite apply_rule_tags. destruct (fires rule x).
      - destruct (fold_add_appends (Rule.tag rule) (Transaction.tags x)) as (k & -> & Hk).
        exists k. split; [done|]. intros t Ht. by destruct (Hk t Ht).
      - exists []. split; [by rewrite app_nil_r | by intros t Ht%elem_of_nil]. }
    rewrite Hk1. exists (k1 ++ k2)%list. split; [by rewrite app_assoc|].
    intros tag [Ht | Ht]%elem_of_app.
    + destruct (H1 tag Ht) as (Hx & Hf & Hr). split; [done|].
      apply elem_of_firing_tags. exists rule. split; [by left | done].
    + destruct (H2 tag Ht) as [Hx Hf]. split.
      * intros Hin. apply Hx. rewrite Hk1, elem_of_app. by left.
      * unfold firing_tags in Hf. rewrite firing_apply_rule in Hf.
        apply elem_of_firing_tags in Hf as (r & Hr & Hfr & Htag).
        apply elem_of_firing_tags. exists r. split; [by right | done].
Qed.

(** ** Tag lists stay well formed *)

Lemma apply_rules_well_formed (uo : bool) (rules : list Rule.t) (x : Transaction.t) :
  well_formed_tags (Transaction.tags x) ->
  (forall rule, rule ∈ rules -> well_formed_tags (Rule.tag rule)) ->
  well_formed_tags (Transaction.tags (apply_rules uo rules x)).
Proof.
  intros [Hnd Hx] Hrules. split; [by apply apply_rules_NoDup|].
  intros tag Htag. apply elem_of_tag_set in Htag.
  rewrite apply_rules_tag_set, elem_of_union in Htag.
  destruct Htag as [Htag | Htag].
  - apply Hx. by apply elem_of_tag_set.
  - apply elem_of_firing_tags in Htag as (rule & Hr & _ & Htag).
    by apply (Hrules rule Hr).
Qed.

Lemma tagArray_read_back (x : Transaction.t) :
  well_formed_tags (Transaction.tags x) ->
  match tagArray x with
  | Some cell => parse_tags cell = Transaction.tags x
  | None => Transaction.tags x = []
  end.
Proof.
  intros Hwf. unfold tagArray, JS.size.
  destruct (Transaction.tags x) as [|t l] eqn:E; [done|].
  cbn [length Nat.ltb Nat.leb]. by apply parse_tags_join.
Qed.

(** ** The two modes on an object with an empty category *)

Lemma mode_gate (x : Transaction.t) :
  Transaction.category x = "" \/ Transaction.categorized x = true ->
  categorizable true x = categorizable false x.
Proof.
  unfold categorizable. intros [-> | ->]; [|done].
  by destruct (Transaction.categorized x).
Qed.

Lemma mode_apply_rule (x : Transaction.t) (rule : Rule.t) :
  Transaction.category x = "" \/ Transaction.categorized x = true ->
  apply_rule true x rule = apply_rule false x rule /\
  (Transaction.category (apply_rule false x rule) = "" \/
   Transaction.categorized (apply_rule false x rule) = true).
Proof.
  intros H. split.
  - unfold apply_rule. by rewrite (mode_gate x H).
  - rewrite apply_rule_category, apply_rule_categorized.
    destruct (fires rule x && categorizable false x); [by right | done].
Qed.

Lemma mode_apply_rules (rules : list Rule.t) (x : Transaction.t) :
  Transaction.category x = "" \/ Transaction.categorized x = true ->
  apply_rules true rules x = apply_rules false rules x.
Proof.
  revert x. induction rules as [|rule rules IH]; intros x H; simpl; [done|].
  destruct (mode_apply_rule x rule H) as [-> H']. by apply IH.
Qed.

(** ** X1-X5: further properties of runRules and scrapeTags *)

(** X1: the tags an object had before the pass keep their places at the
    front of its tag set; what the pass adds comes after them, was not
    there before, and is a tag of a firing rule. *)
Theorem tags_keep_their_place (rules : list Rule.t) (m : TransactionMap)
    (uncategorizedOnly : bool) (h : store) (l : ref) :
  exists added : list string,
    Transaction.tags (fst (runRules rules m uncategorizedOnly h) l)
      = (Transaction.tags (h l) ++ added)%list /\
    forall tag, tag ∈ added ->
                (tag ∉ Transaction.tags (h l)) /\ tag ∈ firing_tags rules (h l).
Proof.
  rewrite runRules_store. case_bool_decide.
  - apply apply_rules_appends.
  - exists []. split; [by rewrite app_nil_r | by intros t Ht%elem_of_nil].
Qed.

(** X2: an object that is not in the collection, or on which no rule
    fires, is left exactly as it was. *)
Theorem runRules_untouched (rules : list Rule.t) (m : TransactionMap)
    (uncategorizedOnly : bool) (h : store) (l : ref) :
  l ∉ values m \/ (forall rule, rule ∈ rules -> fires rule (h l) = false) ->
  fst (runRules rules m uncategorizedOnly h) l = h l.
Proof.
  intros H. rewrite runRules_store. case_bool_decide as Hin; [|done].
  destruct H as [H | H]; [done | by apply none_fires].
Qed.

Lemma runRules_untouched_witness :
  fst (runRules [amount_rule ">100"; amount_rule "<-5"] [("id", 0)] false
         (store_of (transaction_of "CAFE LATTE" "Old" ["t"] "4.50"))) 0
  = store_of (transaction_of "CAFE LATTE" "Old" ["t"] "4.50") 0.
Proof.
  apply (runRules_untouched [amount_rule ">100"; amount_rule "<-5"] [("id", 0)] false
           (store_of (transaction_of "CAFE LATTE" "Old" ["t"] "4.50")) 0).
  right. intros rule Hr.
  apply elem_of_cons in Hr as [-> | Hr]; [vm_compute; reflexivity|].
  apply list_elem_of_singleton in Hr as ->. vm_compute. reflexivity.
Defined.

(** X3: for an object whose category is the empty string, or which is
    already marked as categorized, the pass does the same with
    [uncategorizedOnly] true as with false. *)
Theorem mode_makes_no_difference (rules : list Rule.t) (m : TransactionMap)
    (h : store) (l : ref) :
  Transaction.category (h l) = "" \/ Transaction.categorized (h l) = true ->
  fst (runRules rules m true h) l = fst (runRules rules m false h) l.
Proof.
  intros H. rewrite !runRules_store.
  case_bool_decide; [by apply mode_apply_rules | done].
Qed.

Lemma mode_makes_no_difference_witness :
  fst (runRules [category_rule "A" "x"] [("id", 0)] true
         (store_of (transaction_of "CAFE LATTE" "" [] "4.50"))) 0
  = fst (runRules [category_rule "A" "x"] [("id", 0)] false
           (store_of (transaction_of "CAFE LATTE" "" [] "4.50"))) 0.
Proof.
  apply (mode_makes_no_difference [category_rule "A" "x"] [("id", 0)]
           (store_of (transaction_of "CAFE LATTE" "" [] "4.50")) 0).
  left. reflexivity.
Defined.

(** X4: the projection of what [runRules] returns, as [main] computes
    it, has one row per entry of the collection, in the order of the
    entries, and row [i] is the cell of the object of entry [i] as the
    pass left it. *)
Theorem projection_of_the_pass (rules : list Rule.t) (m : TransactionMap)
    (uncategorizedOnly : bool) (h : store) :
  length (scrapeTags (fst (runRules rules m uncategorizedOnly h))
                     (snd (runRules rules m uncategorizedOnly h)))
    = length m /\
  forall i key l,
    m !! i = Some (key, l) ->
    scrapeTags (fst (runRules rules m uncategorizedOnly h))
               (snd (runRules rules m uncategorizedOnly h)) !! i
    = Some [tagArray (fst (runRules rules m uncategorizedOnly h) l)].
Proof.
  rewrite runRules_result, scrapeTags_map. split.
  - unfold values. by rewrite !length_map.
  - intros i key l Hi. unfold values, TransactionMap in *.
    by rewrite !list_lookup_fmap, Hi.
Qed.

(** X5: when the tags of an object and of the rules are well formed (no
    tag twice, none empty, none with a comma), the cell that
    [scrapeTags] produces after the pass reads back, by the parsing of
    the [Transaction] constructor, as the very tag list of the object;
    the cell is [undefined] only when the object has no tag. *)
Theorem written_tags_read_back (rules : list Rule.t) (m : TransactionMap)
    (uncategorizedOnly : bool) (h : store) (l : ref) :
  well_formed_tags (Transaction.tags (h l)) ->
  (forall rule, rule ∈ rules -> well_formed_tags (Rule.tag rule)) ->
  well_formed_tags (Transaction.tags (fst (runRules rules m uncategorizedOnly h) l)) /\
  match tagArray (fst (runRules rules m uncategorizedOnly h) l) with
  | Some cell =>
      parse_tags cell = Transaction.tags (fst (runRules rules m uncategorizedOnly h) l)
  | None => Transaction.tags (fst (runRules rules m uncategorizedOnly h) l) = []
  end.
Proof.
  intros Hx Hrules.
  assert (well_formed_tags
            (Transaction.tags (fst (runRules rules m uncategorizedOnly h) l))) as Hwf.
  { rewrite runRules_store. case_bool_decide; [|done].
    by apply apply_rules_well_formed. }
  split; [done | by apply tagArray_read_back].
Qed.

Lemma written_tags_read_back_witness :
  let rules := [Rule.new "A" "x,y" "" "" "" ""; Rule.new "B" "y,,z" "" "" "" ""] in
  let h := store_of (transaction_of "CAFE LATTE" "" (parse_tags "t,x") "4.50") in
  well_formed_tags (Transaction.tags (fst (runRules rules [("id", 0)] false h) 0)) /\
  match tagArray (fst (runRules rules [("id", 0)] false h) 0) with
  | Some cell =>
      parse_tags cell = Transaction.tags (fst (runRules rules [("id", 0)] false h) 0)
  | None => Transaction.tags (fst (runRules rules [("id", 0)] false h) 0) = []
  end.
Proof.
  intros rules h. apply (written_tags_read_back rules [("id", 0)] false h 0).
  - apply parse_tags_well_formed.
  - intros rule Hr. apply elem_of_cons in Hr as [-> | Hr].
    + apply parse_tags_well_formed.
    + apply list_elem_of_singleton in Hr as ->. apply parse_tags_well_formed.
Defined.

(** ** Comparing numbers *)

Lemma lt_trans (x y z : JS.number) :
  JS.lt x y = true -> JS.lt y z = true -> JS.lt x z = true.
Proof.
  unfold JS.lt, SFltb, SFcompare.
  destruct x as [sx|sx| |sx mx ex], y as [sy|sy| |sy my ey], z as [sz|sz| |sz mz ez];
    try destruct sx; try destruct sy; try destruct sz;
    try (intros; discriminate); try (intros; reflexivity).
  all: change (Pos.compare_cont Eq ?a ?b) with (Pos.compare a b).
  all: destruct (Z.compare_spec ex ey); try (intros; discriminate);
       destruct (Z.compare_spec ey ez); try (intros; discriminate);
       destruct (Z.compare_spec ex ez); try (intros; reflexivity); try lia.
  all: destruct (Pos.compare_spec mx my); try (intros; discriminate); simpl;
       destruct (Pos.compare_spec my mz); try (intros; discriminate); simpl;
       destruct (Pos.compare_spec mx mz); try (intros; reflexivity); simpl; try lia.
Qed.

Lemma lt_NaN_l (x : JS.number) : JS.lt JS.NaN x = false.
Proof. done. Qed.

Lemma lt_NaN_r (x : JS.number) : JS.lt x JS.NaN = false.
Proof. by destruct x. Qed.

(** ** What a pattern captures *)

Lemma take_drop_while (p : ascii -> bool) (s : string) :
  JS.take_while p s +:+ JS.drop_while p s = s.
Proof.
  induction s as [|a r IH]; simpl; [done|].
  destruct (p a); simpl; [|done].
  change (String a (JS.take_while p r +:+ JS.drop_while p r) = String a r).
  by rewrite IH.
Qed.

Lemma take_while_bound_chars (s : string) :
  all_bound_chars (JS.take_while Pattern.bound_char s) = true.
Proof.
  induction s as [|a r IH]; simpl; [done|].
  destruct (Pattern.bound_char a) eqn:E; simpl; [by rewrite E | done].
Qed.

Lemma drop_while_head (p : ascii -> bool) (s : string) :
  match JS.drop_while p s with
  | String c _ => p c = false
  | EmptyString => True
  end.
Proof.
  induction s as [|a r IH]; simpl; [done|].
  by destruct (p a) eqn:E.
Qed.

(** ** Reading digits *)

Lemma take_while_digits (ds : string) (c : ascii) (rest : string) :
  all_digits ds = true -> JS.is_digit c = false ->
  JS.take_while JS.is_digit (ds +:+ String c rest) = ds /\
  JS.drop_while JS.is_digit (ds +:+ String c rest) = String c rest.
Proof.
  intros Hds Hc. induction ds as [|d ds IH]; simpl.
  - by rewrite Hc.
  - simpl in Hds. apply andb_true_iff in Hds as [-> Hds].
    destruct (IH Hds) as [-> ->]. done.
Qed.

Lemma take_while_all_digits (ds : string) :
  all_digits ds = true ->
  JS.take_while JS.is_digit ds = ds /\ JS.drop_while JS.is_digit ds = "".
Proof.
  intros Hds. induction ds as [|d ds IH]; simpl; [done|].
  simpl in Hds. apply andb_true_iff in Hds as [-> Hds].
  destruct (IH Hds) as [-> ->]. done.
Qed.

(** Reading starts at a digit: no white space, no sign, no [Infinity]. *)
Lemma parseFloat_at_digit (d : ascii) (r : string) :
  JS.is_digit d = true ->
  JS.parseFloat (String d r) =
  let int_part := JS.take_while JS.is_digit (String d r) in
  let after_int := JS.drop_while JS.is_digit (String d r) in
  let '(frac_part, after_frac) :=
    match after_int with
    | String "." r' => (JS.take_while JS.is_digit r', JS.drop_while JS.is_digit r')
    | _ => (EmptyString, after_int)
    end in
  match int_part +:+ frac_part with
  | EmptyString => JS.NaN
  | mantissa =>
      JS.of_decimal false (JS.digits_value mantissa)
        (JS.exponent_part after_frac - Z.of_nat (String.length frac_part))
  end.
Proof.
  intros H.
  destruct d as [[] [] [] [] [] [] [] []]; try (by vm_compute in H); reflexivity.
Qed.

Lemma parseFloat_stops_at_comma (ds rest : string) :
  all_digits ds = true -> ds <> "" ->
  JS.parseFloat (ds +:+ String "," rest) = JS.parseFloat ds.
Proof.
  intros Hds Hne. destruct ds as [|d ds]; [done|].
  assert (JS.is_digit d = true) as Hd.
  { simpl in Hds. by apply andb_true_iff in Hds as [? _]. }
  change (String d ds +:+ String "," rest) with (String d (ds +:+ String "," rest)).
  rewrite !parseFloat_at_digit by done.
  change (String d (ds +:+ String "," rest)) with (String d ds +:+ String "," rest).
  destruct (take_while_digits (String d ds) "," rest Hds eq_refl) as [-> ->].
  destruct (take_while_all_digits (String d ds) Hds) as [-> ->].
  reflexivity.
Qed.

Lemma replace_first_head (c : ascii) (s : string) :
  JS.replace_first c (String c s) = s.
Proof. simpl. by rewrite Ascii.eqb_refl. Qed.

(** ** X6-X9: further properties of the amount filter and of amounts *)

(** X6: when both bounds are present and the lower one is not below the
    upper one (the bounds are crossed or equal, or one of them is NaN),
    [matchAmount] is false for every number. *)
Theorem crossed_bounds_never_match (rule : Rule.t) (L U n : JS.number) :
  lowerBound rule = Some L ->
  upperBound rule = Some U ->
  JS.lt L U = false ->
  Rule.matchAmount rule n = Some false.
Proof.
  intros HL HU Hcross. rewrite matchAmount_policy, HL, HU. simpl. f_equal.
  destruct (JS.gt n L) eqn:H1; [|done]. destruct (JS.lt n U) eqn:H2; [|done].
  unfold JS.gt in H1. fold (JS.lt L n) in H1.
  by rewrite (lt_trans L n U H1 H2) in Hcross.
Qed.

Lemma crossed_bounds_never_match_witness :
  Rule.matchAmount (amount_rule ">200<100") (JS.parseFloat "150") = Some false.
Proof.
  apply (crossed_bounds_never_match (amount_rule ">200<100")
           (JS.parseFloat "200") (JS.parseFloat "100") (JS.parseFloat "150")).
  - vm_compute. reflexivity.
  - vm_compute. reflexivity.
  - vm_compute. reflexivity.
Defined.

(** X7: when the text captured for a bound reads as NaN, [matchAmount]
    is false for every number, whatever the other bound is. *)
Theorem NaN_bound_never_matches (rule : Rule.t) (n : JS.number) :
  lowerBound rule = Some JS.NaN \/ upperBound rule = Some JS.NaN ->
  Rule.matchAmount rule n = Some false.
Proof.
  rewrite matchAmount_policy. unfold bound_policy, JS.gt.
  fold (JS.lt JS.NaN n). intros [-> | ->].
  - by destruct (upperBound rule).
  - rewrite lt_NaN_r. destruct (lowerBound rule); [by rewrite andb_false_r | done].
Qed.

Lemma NaN_bound_never_matches_witness :
  Rule.matchAmount (amount_rule "<.") (JS.parseFloat "-1") = Some false.
Proof.
  apply (NaN_bound_never_matches (amount_rule "<.") (JS.parseFloat "-1")).
  right. vm_compute. reflexivity.
Defined.

(** X8: when a bound pattern matches, the filter reads [pre op run post]
    where [run], the captured text, is a non-empty run of the characters
    [-], [.] and digits, [post] does not go on with such a character,
    and the operator is followed by no such character anywhere in
    [pre]: the capture is the longest run after the leftmost usable
    operator. *)
Theorem capture_is_leftmost_longest (op : ascii) (s : string)
    (m : Pattern.match_result) :
  Pattern.exec op s = Some m ->
  exists pre post,
    s = pre +:+ String op (Pattern.group1 m +:+ post) /\
    Pattern.whole m = String op (Pattern.group1 m) /\
    Pattern.group1 m <> "" /\
    all_bound_chars (Pattern.group1 m) = true /\
    match post with
    | String c _ => Pattern.bound_char c = false
    | EmptyString => True
    end /\
    Pattern.exec op (pre +:+ String op "") = None.
Proof.
  induction s as [|a r IH]; simpl; [done|].
  assert (Hrec : Pattern.exec op r = Some m ->
                 (Ascii.eqb a op = true -> JS.take_while Pattern.bound_char r = "") ->
                 exists pre post,
                   String a r = pre +:+ String op (Pattern.group1 m +:+ post) /\
                   Pattern.whole m = String op (Pattern.group1 m) /\
                   Pattern.group1 m <> "" /\
                   all_bound_chars (Pattern.group1 m) = true /\
                   match post with
                   | String c _ => Pattern.bound_char c = false
                   | EmptyString => True
                   end /\
                   Pattern.exec op (pre +:+ String op "") = None).
  { intros Hr Ha. destruct (IH Hr) as (pre & post & Hs & Hw & Hne & Hall & Hpost & Hleft).
    exists (String a pre), post. split_and!; try done.
    - simpl. by rewrite Hs.
    - simpl. destruct (Ascii.eqb a op) eqn:E; [|done].
      specialize (Ha eq_refl).
      assert (JS.take_while Pattern.bound_char (pre +:+ String op "") = "") as ->; [|done].
      rewrite Hs in Ha. destruct pre as [|b pre]; simpl in *.
      + by destruct (Pattern.bound_char op).
      + by destruct (Pattern.bound_char b). }
  destruct (Ascii.eqb a op) eqn:E; [|by intros H; apply Hrec].
  apply Ascii.eqb_eq in E as ->.
  destruct (JS.take_while Pattern.bound_char r) as [|c run] eqn:Erun.
  { intros H. by apply Hrec. }
  intros [= <-]. simpl.
  exists "", (JS.drop_while Pattern.bound_char r). split_and!; try done.
  - simpl. by rewrite <- Erun, take_drop_while.
  - change (all_bound_chars (String c run) = true).
    rewrite <- Erun. apply take_while_bound_chars.
  - apply drop_while_head.
  - simpl. by rewrite Ascii.eqb_refl.
Qed.

Lemma capture_is_leftmost_longest_witness :
  exists pre post,
    "over > or >5.5>10" = pre +:+ String ">" ("5.5" +:+ post) /\
    ">5.5" = String ">" "5.5" /\
    "5.5" <> "" /\
    all_bound_chars "5.5" = true /\
    match post with
    | String c _ => Pattern.bound_char c = false
    | EmptyString => True
    end /\
    Pattern.exec ">" (pre +:+ String ">" "") = None.
Proof.
  apply (capture_is_leftmost_longest ">" "over > or >5.5>10"
           {| Pattern.whole := ">5.5"; Pattern.group1 := "5.5" |}).
  vm_compute. reflexivity.
Defined.

(** ** Rows of the AutoTag sheet *)

Lemma rule_of_row_long (row : list string) :
  6 <= length row -> rule_of_row row = Normal (rule_of_cells row).
Proof.
  intros H.
  destruct row as [|c0 [|c1 [|c2 [|c3 [|c4 [|c5 row]]]]]]; simpl in H; try lia.
  reflexivity.
Qed.

Lemma rule_of_row_throws (row : list string) :
  rule_of_row row = Throw_TypeError <-> length row < 2.
Proof.
  destruct row as [|c0 [|c1 [|c2 [|c3 [|c4 [|c5 row]]]]]]; simpl;
    (split; [intros H; try discriminate H; lia | intros H; try reflexivity; lia]).
Qed.

Lemma push_rule_throws (st : completion (list Rule.t)) (row : list string) :
  push_rule st row = Throw_TypeError <->
  st = Throw_TypeError \/ length row < 2.
Proof.
  rewrite <- rule_of_row_throws. unfold push_rule.
  destruct st, (rule_of_row row); split; intros H; try done;
    try (by left); try (by right); by destruct H.
Qed.

Lemma makeRules_loop_throws (rows : list (list string)) (st : completion (list Rule.t)) :
  fold_left push_rule rows st = Throw_TypeError <->
  st = Throw_TypeError \/ exists row, row ∈ rows /\ length row < 2.
Proof.
  revert st. induction rows as [|row rows IH]; intros st; simpl.
  - split; [by left | intros [H | (row & Hr & _)]; [done | by apply elem_of_nil in Hr]].
  - rewrite IH, push_rule_throws. split.
    + intros [[H | H] | (r & Hr & Hlen)].
      * by left.
      * right. exists row. split; [by left | done].
      * right. exists r. split; [by right | done].
    + intros [H | (r & Hr & Hlen)].
      * by left; left.
      * apply elem_of_cons in Hr as [-> | Hr]; [by left; right|].
        right. by exists r.
Qed.

Lemma makeRules_loop_long (rows : list (list string)) (acc : list Rule.t) :
  (forall row, row ∈ rows -> 6 <= length row) ->
  fold_left push_rule rows (Normal acc) = Normal (acc ++ map rule_of_cells rows)%list.
Proof.
  revert acc. induction rows as [|row rows IH]; intros acc H; cbn [fold_left map].
  - by rewrite app_nil_r.
  - assert (push_rule (Normal acc) row = Normal (acc ++ [rule_of_cells row])%list) as ->.
    { unfold push_rule. by rewrite rule_of_row_long by (apply H; left). }
    rewrite IH by (intros r Hr; apply H; by right).
    by rewrite <- app_assoc.
Qed.

(** ** Rows of the Transactions sheet *)

Lemma new_Transaction_long (Date_parse : string -> JS.number)
    (rowArray : list string) (address : option JS.number) :
  13 <= length rowArray ->
  new_Transaction Date_parse rowArray address =
  Normal
    {| Transaction.address := address;
       Transaction.date := new_Date Date_parse (rowArray !! 0);
       Transaction.description := nth 1 rowArray "";
       Transaction.category := nth 2 rowArray "";
       Transaction.tags := parse_tags (nth 3 rowArray "");
       Transaction.amount := JS.parseFloat (JS.replace_first "$" (nth 4 rowArray ""));
       Transaction.account := nth 5 rowArray "";
       Transaction.accountNum := nth 6 rowArray "";
       Transaction.institution := nth 7 rowArray "";
       Transaction.month := new_Date Date_parse (rowArray !! 8);
       Transaction.week := new_Date Date_parse (rowArray !! 9);
       Transaction.fullDescription := nth 10 rowArray "";
       Transaction.checkNumber := nth 11 rowArray "";
       Transaction.transactionId := id_of_row rowArray;
       Transaction.categorized := false |}.
Proof.
  intros H.
  destruct rowArray as [|c0 [|c1 [|c2 [|c3 [|c4 [|c5 [|c6 [|c7 [|c8 [|c9
    [|c10 [|c11 [|c12 rowArray]]]]]]]]]]]]]; simpl in H; try lia.
  reflexivity.
Qed.

Lemma new_Transaction_short (Date_parse : string -> JS.number)
    (rowArray : list string) (address : option JS.number) :
  length rowArray < 5 ->
  new_Transaction Date_parse rowArray address = Throw_TypeError.
Proof.
  intros H.
  destruct rowArray as [|c0 [|c1 [|c2 [|c3 [|c4 rowArray]]]]]; simpl in H; try lia;
    reflexivity.
Qed.

Lemma new_Transaction_middle (Date_parse : string -> JS.number)
    (rowArray : list string) (address : option JS.number) :
  5 <= length rowArray < 13 ->
  new_Transaction Date_parse rowArray address = Untyped.
Proof.
  intros H.
  destruct rowArray as [|c0 [|c1 [|c2 [|c3 [|c4 [|c5 [|c6 [|c7 [|c8 [|c9
    [|c10 [|c11 [|c12 rowArray]]]]]]]]]]]]]; simpl in H; try lia;
    reflexivity.
Qed.

(** ** X9-X13: the two constructors and makeRules *)

(** X9: the tag cell of a rule is the comma-join of its pieces, none of
    which holds a comma; the tags of the rule are exactly the pieces
    that are not empty, each listed once; and a well-formed tag list
    written as a comma-joined cell is read back as itself. *)
Theorem rule_tags_from_cell
    (category tagRaw description account institution amount : string) :
  JS.join "," (JS.split "," tagRaw) = tagRaw /\
  (forall piece, piece ∈ JS.split "," tagRaw -> contains_char "," piece = false) /\
  (forall tag,
      tag ∈ Rule.tag (Rule.new category tagRaw description account institution amount)
      <-> tag <> "" /\ tag ∈ JS.split "," tagRaw) /\
  well_formed_tags
    (Rule.tag (Rule.new category tagRaw description account institution amount)) /\
  (forall tags,
      well_formed_tags tags ->
      Rule.tag (Rule.new category (JS.join "," tags) description account institution amount)
      = tags).
Proof.
  split_and!.
  - apply join_split.
  - intros piece. apply split_pieces.
  - intros tag. apply elem_of_parse_tags.
  - apply parse_tags_well_formed.
  - intros tags. apply parse_tags_join.
Qed.

(** X10: when every row after the header has six cells or more,
    [makeRules] returns one rule per such row, in the order of the rows,
    built from the first six cells of the row; a sheet with no row, or
    with the header only, gives no rule. *)
Theorem makeRules_rows (values : list (list string)) :
  (forall row, row ∈ tail values -> 6 <= length row) ->
  exists rules,
    makeRules values = Normal rules /\
    length rules = length values - 1 /\
    forall i row, tail values !! i = Some row ->
                  rules !! i = Some (rule_of_cells row).
Proof.
  intros H. exists (map rule_of_cells (tail values)). split_and!.
  - unfold makeRules. by rewrite makeRules_loop_long.
  - rewrite length_map. destruct values; simpl; lia.
  - intros i row Hi. by rewrite list_lookup_fmap, Hi.
Qed.

Lemma makeRules_rows_witness :
  exists rules,
    makeRules [["Category"; "Tags"; "Description"; "Account"; "Institution"; "Amount"];
               ["Food"; "dining"; "CAFE"; ""; ""; ">0"; "note"]]
      = Normal rules /\
    length rules = 2 - 1 /\
    forall i row,
      [["Food"; "dining"; "CAFE"; ""; ""; ">0"; "note"]] !! i = Some row ->
      rules !! i = Some (rule_of_cells row).
Proof.
  apply (makeRules_rows
           [["Category"; "Tags"; "Description"; "Account"; "Institution"; "Amount"];
            ["Food"; "dining"; "CAFE"; ""; ""; ">0"; "note"]]).
  intros row Hr. apply list_elem_of_singleton in Hr as ->. simpl. lia.
Defined.

(** X11: [makeRules] throws a TypeError exactly when some row after the
    header has fewer than two cells (no tag cell to split). *)
Theorem makeRules_throws (values : list (list string)) :
  makeRules values = Throw_TypeError <->
  exists row, row ∈ tail values /\ length row < 2.
Proof.
  unfold makeRules. rewrite makeRules_loop_throws.
  split; [by intros [H | H] | by right].
Qed.

(** X12: the [Transaction] constructor throws a TypeError on a row with
    fewer than five cells, leaves [undefined] in typed fields on a row
    with five to twelve cells, and on a row with thirteen cells or more
    returns an object that is not categorized, carries the given
    address, the category of cell 2 and the identifier of cell 12, and
    whose tags are the non-empty comma-separated pieces of cell 3, each
    once. *)
Theorem new_Transaction_by_length (Date_parse : string -> JS.number)
    (rowArray : list string) (address : option JS.number) :
  (length rowArray < 5 ->
   new_Transaction Date_parse rowArray address = Throw_TypeError) /\
  (5 <= length rowArray < 13 ->
   new_Transaction Date_parse rowArray address = Untyped) /\
  (13 <= length rowArray ->
   exists t,
     new_Transaction Date_parse rowArray address = Normal t /\
     Transaction.categorized t = false /\
     Transaction.address t = address /\
     Transaction.category t = nth 2 rowArray "" /\
     Transaction.transactionId t = nth 12 rowArray "" /\
     well_formed_tags (Transaction.tags t) /\
     forall tag, tag ∈ Transaction.tags t <->
                 tag <> "" /\ tag ∈ JS.split "," (nth 3 rowArray "")).
Proof.
  split_and!.
  - apply new_Transaction_short.
  - apply new_Transaction_middle.
  - intros H. eexists. split; [by apply new_Transaction_long|].
    cbn [Transaction.categorized Transaction.address Transaction.category
         Transaction.transactionId Transaction.tags].
    split_and!; try done.
    + apply parse_tags_well_formed.
    + intros tag. apply elem_of_parse_tags.
Qed.

Lemma new_Transaction_by_length_witness :
  exists t,
    new_Transaction no_date (sheet_row "CAFE LATTE" "Food" "a,,b,a" "$4.50" "id-1") None
      = Normal t /\
    Transaction.categorized t = false /\
    Transaction.address t = None /\
    Transaction.category t = nth 2 (sheet_row "CAFE LATTE" "Food" "a,,b,a" "$4.50" "id-1") "" /\
    Transaction.transactionId t
      = nth 12 (sheet_row "CAFE LATTE" "Food" "a,,b,a" "$4.50" "id-1") "" /\
    well_formed_tags (Transaction.tags t) /\
    forall tag,
      tag ∈ Transaction.tags t <->
      tag <> "" /\
      tag ∈ JS.split "," (nth 3 (sheet_row "CAFE LATTE" "Food" "a,,b,a" "$4.50" "id-1") "").
Proof.
  apply (proj2 (proj2 (new_Transaction_by_length no_date
           (sheet_row "CAFE LATTE" "Food" "a,,b,a" "$4.50" "id-1") None))).
  simpl. lia.
Defined.

(** X13: an amount cell that starts with the currency sign, goes on with
    digits and then a comma (a thousands separator) is read up to the
    comma only: the amount of the transaction is the number of the
    digits before the comma. *)
Theorem amount_stops_at_comma (Date_parse : string -> JS.number)
    (rowArray : list string) (address : option JS.number) (ds rest : string) :
  13 <= length rowArray ->
  rowArray !! 4 = Some (String "$" (ds +:+ String "," rest)) ->
  all_digits ds = true ->
  ds <> "" ->
  exists t,
    new_Transaction Date_parse rowArray address = Normal t /\
    Transaction.amount t = JS.parseFloat ds.
Proof.
  intros Hlen Hcell Hds Hne. eexists. split; [by apply new_Transaction_long|].
  cbn [Transaction.amount].
  rewrite (nth_lookup_Some _ _ _ _ Hcell), replace_first_head.
  by apply parseFloat_stops_at_comma.
Qed.

Lemma amount_stops_at_comma_witness :
  exists t,
    new_Transaction no_date (sheet_row "RENT" "" "" "$1,234.56" "id-2") None = Normal t /\
    Transaction.amount t = JS.parseFloat "1".
Proof.
  apply (amount_stops_at_comma no_date (sheet_row "RENT" "" "" "$1,234.56" "id-2")
           None "1" "234.56").
  - simpl. lia.
  - reflexivity.
  - reflexivity.
  - discriminate.
Defined.

(** ** The collection of transactions *)

Lemma map_get_set_eq (m : TransactionMap) (k : string) (v : ref) :
  map_get (map_set m k v) k = Some v.
Proof.
  induction m as [|[k0 v0] m IH]; simpl.
  - by rewrite String.eqb_refl.
  - destruct (String.eqb k0 k) eqn:E; simpl; by rewrite E.
Qed.

Lemma map_get_set_ne (m : TransactionMap) (k k' : string) (v : ref) :
  k' <> k -> map_get (map_set m k v) k' = map_get m k'.
Proof.
  intros Hne. induction m as [|[k0 v0] m IH]; simpl.
  - assert (String.eqb k k' = false) as -> by (apply String.eqb_neq; congruence).
    done.
  - destruct (String.eqb k0 k) eqn:E; simpl.
    + apply String.eqb_eq in E as ->.
      assert (String.eqb k k' = false) as -> by (apply String.eqb_neq; congruence).
      done.
    + by rewrite IH.
Qed.

Lemma keys_set (m : TransactionMap) (k : string) (v : ref) :
  keys (map_set m k v) = if bool_decide (k ∈ keys m) then keys m else (keys m ++ [k])%list.
Proof.
  induction m as [|[k0 v0] m IH]; simpl; [done|].
  destruct (String.eqb k0 k) eqn:E; simpl.
  - apply String.eqb_eq in E as ->.
    by rewrite bool_decide_eq_true_2 by left.
  - apply String.eqb_neq in E. rewrite IH.
    case_bool_decide as H1; case_bool_decide as H2; try done.
    + exfalso. apply H2. by right.
    + apply elem_of_cons in H2 as [-> | H2]; done.
Qed.

Lemma values_set_elem (m : TransactionMap) (k : string) (v l : ref) :
  l ∈ values (map_set m k v) -> l = v \/ l ∈ values m.
Proof.
  induction m as [|[k0 v0] m IH]; simpl.
  - intros ->%list_elem_of_singleton. by left.
  - destruct (String.eqb k0 k); simpl.
    + intros [-> | H]%elem_of_cons; [by left | right; by right].
    + intros [-> | H]%elem_of_cons; [right; by left|].
      destruct (IH H) as [-> | H']; [by left | right; by right].
Qed.

Lemma values_set_NoDup (m : TransactionMap) (k : string) (v : ref) :
  NoDup (values m) -> v ∉ values m -> NoDup (values (map_set m k v)).
Proof.
  induction m as [|[k0 v0] m IH]; simpl; intros Hnd Hv.
  - apply NoDup_singleton.
  - apply NoDup_cons in Hnd as [Hv0 Hnd].
    apply not_elem_of_cons in Hv as [Hne Hv].
    destruct (String.eqb k0 k); simpl.
    + by apply NoDup_cons.
    + apply NoDup_cons. split; [|by apply IH].
      intros [-> | H]%values_set_elem; done.
Qed.

Lemma values_set_new (m : TransactionMap) (k : string) (v : ref) :
  k ∉ keys m -> values (map_set m k v) = (values m ++ [v])%list.
Proof.
  induction m as [|[k0 v0] m IH]; simpl; intros Hk; [done|].
  apply not_elem_of_cons in Hk as [Hne Hk].
  assert (String.eqb k0 k = false) as -> by (apply String.eqb_neq; congruence).
  simpl. f_equal. by apply IH.
Qed.

Lemma with_row_ok (s : loader) (newRow : Transaction.t) :
  loader_ok s -> loader_ok (with_row s newRow).
Proof.
  intros (Hk & Hv & Hlt). unfold loader_ok, with_row. cbn [txnPaginator fresh].
  assert (fresh s ∉ values (txnPaginator s)) as Hfresh.
  { intros Hin. specialize (Hlt _ Hin). lia. }
  split_and!.
  - rewrite keys_set. case_bool_decide as Hin; [done|].
    apply NoDup_app. split_and!; [done | | apply NoDup_singleton].
    intros x Hx ->%list_elem_of_singleton. contradiction.
  - by apply values_set_NoDup.
  - intros l [-> | Hl]%values_set_elem; [lia|]. specialize (Hlt _ Hl). lia.
Qed.

Lemma load_rows_cons (Date_parse : string -> JS.number) (i : JS.number) (j : nat)
    (row : list string) (rest : list (list string)) (s : loader) :
  13 <= length row ->
  exists newRow,
    new_Transaction Date_parse row (Some (rowAddress i j)) = Normal newRow /\
    Transaction.transactionId newRow = id_of_row row /\
    load_rows Date_parse i j (row :: rest) s
    = load_rows Date_parse i (S j) rest (with_row s newRow).
Proof.
  intros H. eexists. split; [by apply new_Transaction_long|]. split; [done|].
  cbn [load_rows]. fold (rowAddress i j).
  by rewrite (new_Transaction_long Date_parse row (Some (rowAddress i j)) H).
Qed.

Lemma load_rows_long (Date_parse : string -> JS.number) (i : JS.number)
    (text : list (list string)) (j : nat) (s : loader) :
  (forall row, row ∈ text -> 13 <= length row) ->
  snd (load_rows Date_parse i j text s) = Completed /\
  (loader_ok s -> loader_ok (fst (load_rows Date_parse i j text s))) /\
  fresh (fst (load_rows Date_parse i j text s)) = fresh s + length text /\
  (forall k, k ∈ keys (txnPaginator (fst (load_rows Date_parse i j text s))) <->
             k ∈ keys (txnPaginator s) \/ k ∈ map id_of_row text) /\
  (forall l, l < fresh s ->
             objects (fst (load_rows Date_parse i j text s)) l = objects s l) /\
  (forall k, k ∉ map id_of_row text ->
             map_get (txnPaginator (fst (load_rows Date_parse i j text s))) k
             = map_get (txnPaginator s) k).
Proof.
  revert j s. induction text as [|row rest IH]; intros j s Hlong.
  - simpl. split_and!; try done; try lia.
    intros k. split; [by left | by intros [H | H%elem_of_nil]].
  - destruct (load_rows_cons Date_parse i j row rest s) as (newRow & _ & Hid & ->).
    { apply Hlong. by left. }
    destruct (IH (S j) (with_row s newRow)) as (He & Hok & Hfresh & Hkeys & Hobj & Hget).
    { intros r Hr. apply Hlong. by right. }
    split_and!.
    + done.
    + intros Hs. by apply Hok, with_row_ok.
    + rewrite Hfresh. simpl. lia.
    + intros k. rewrite Hkeys. cbn [with_row txnPaginator]. rewrite keys_set, Hid.
      cbn [map]. rewrite elem_of_cons. case_bool_decide as Hin.
      * split; [intros [H | H]; [by left | by right; right]|].
        intros [H | [-> | H]]; [by left | by left | by right].
      * rewrite elem_of_app, list_elem_of_singleton.
        split; [intros [[H | H] | H]; [by left | by right; left | by right; right]|].
        intros [H | [H | H]]; [by left; left | by left; right | by right].
    + intros l Hl. rewrite Hobj by (simpl; lia).
      cbn [with_row objects]. apply write_other. lia.
    + intros k Hk. cbn [map] in Hk. apply not_elem_of_cons in Hk as [Hne Hk].
      rewrite Hget by done. cbn [with_row txnPaginator].
      apply map_get_set_ne. by rewrite Hid.
Qed.

Lemma load_rows_app (Date_parse : string -> JS.number) (i : JS.number)
    (before rest : list (list string)) (j : nat) (s : loader) :
  (forall row, row ∈ before -> 13 <= length row) ->
  load_rows Date_parse i j (before ++ rest) s
  = load_rows Date_parse i (j + length before) rest
      (fst (load_rows Date_parse i j before s)).
Proof.
  revert j s. induction before as [|row before IH]; intros j s Hlong.
  - simpl. by rewrite Nat.add_0_r.
  - rewrite <- app_comm_cons.
    destruct (load_rows_cons Date_parse i j row (before ++ rest) s) as (newRow & Hn & _ & ->).
    { apply Hlong. by left. }
    destruct (load_rows_cons Date_parse i j row before s) as (newRow' & Hn' & _ & ->).
    { apply Hlong. by left. }
    assert (newRow' = newRow) as -> by congruence.
    rewrite IH by (intros r Hr; apply Hlong; by right).
    f_equal. simpl. lia.
Qed.

Lemma load_rows_distinct (Date_parse : string -> JS.number) (i : JS.number)
    (text : list (list string)) (j : nat) (s : loader) :
  (forall row, row ∈ text -> 13 <= length row) ->
  NoDup (keys (txnPaginator s) ++ map id_of_row text) ->
  keys (txnPaginator (fst (load_rows Date_parse i j text s)))
    = (keys (txnPaginator s) ++ map id_of_row text)%list /\
  values (txnPaginator (fst (load_rows Date_parse i j text s)))
    = (values (txnPaginator s) ++ seq (fresh s) (length text))%list.
Proof.
  revert j s. induction text as [|row rest IH]; intros j s Hlong Hnd.
  - simpl. by rewrite !app_nil_r.
  - destruct (load_rows_cons Date_parse i j row rest s) as (newRow & _ & Hid & ->).
    { apply Hlong. by left. }
    cbn [map] in Hnd.
    assert (id_of_row row ∉ keys (txnPaginator s)) as Hnew.
    { apply NoDup_app in Hnd as (_ & Hnd & _). intros Hin.
      apply (Hnd _ Hin). by left. }
    assert (keys (txnPaginator (with_row s newRow))
            = (keys (txnPaginator s) ++ [id_of_row row])%list) as Hk.
    { cbn [with_row txnPaginator]. rewrite keys_set, Hid.
      by rewrite bool_decide_eq_false_2. }
    assert (values (txnPaginator (with_row s newRow))
            = (values (txnPaginator s) ++ [fresh s])%list) as Hv.
    { cbn [with_row txnPaginator]. rewrite Hid. by apply values_set_new. }
    destruct (IH (S j) (with_row s newRow)) as [-> ->].
    { intros r Hr. apply Hlong. by right. }
    { rewrite Hk, <- app_assoc. done. }
    rewrite Hk, Hv, <- !app_assoc. done.
Qed.

Lemma load_rows_object (Date_parse : string -> JS.number) (i : JS.number)
    (text : list (list string)) (j : nat) (s : loader) (n : nat) (row : list string) :
  (forall r, r ∈ text -> 13 <= length r) ->
  text !! n = Some row ->
  new_Transaction Date_parse row (Some (rowAddress i (j + n)))
  = Normal (objects (fst (load_rows Date_parse i j text s)) (fresh s + n)).
Proof.
  revert j s n. induction text as [|r rest IH]; intros j s n Hlong Hn; [done|].
  destruct (load_rows_cons Date_parse i j r rest s) as (newRow & Hnew & _ & ->).
  { apply Hlong. by left. }
  assert (forall r', r' ∈ rest -> 13 <= length r') as Hrest.
  { intros r' Hr'. apply Hlong. by right. }
  destruct n as [|n]; simpl in Hn.
  - injection Hn as ->. rewrite !Nat.add_0_r, Hnew. f_equal.
    destruct (load_rows_long Date_parse i rest (S j) (with_row s newRow) Hrest)
      as (_ & _ & _ & _ & Hobj & _).
    rewrite Hobj by (simpl; lia). cbn [with_row objects]. by rewrite write_same.
  - specialize (IH (S j) (with_row s newRow) n Hrest Hn).
    replace (j + S n) with (S j + n) by lia.
    replace (fresh s + S n) with (fresh (with_row s newRow) + n) by (simpl; lia).
    done.
Qed.

Lemma empty_loader_ok (h : store) : loader_ok (empty_loader h).
Proof.
  unfold loader_ok, empty_loader. simpl. split_and!; [constructor | constructor |].
  by intros l Hl%elem_of_nil.
Qed.

(** ** X14-X18: loading the collection *)

(** X14: loading a batch whose rows all have thirteen cells or more
    runs to the end and keeps the collection in order: every key once,
    every object once (two entries never share an object), the keys
    being those present before and the identifiers of the rows; objects
    allocated before the batch are not modified. *)
Theorem batch_keeps_collection (Date_parse : string -> JS.number) (i : JS.number)
    (j : nat) (text : list (list string)) (s : loader) :
  loader_ok s ->
  (forall row, row ∈ text -> 13 <= length row) ->
  snd (load_rows Date_parse i j text s) = Completed /\
  NoDup (keys (txnPaginator (fst (load_rows Date_parse i j text s)))) /\
  NoDup (values (txnPaginator (fst (load_rows Date_parse i j text s)))) /\
  (forall k, k ∈ keys (txnPaginator (fst (load_rows Date_parse i j text s))) <->
             k ∈ keys (txnPaginator s) \/ k ∈ map id_of_row text) /\
  (forall l, l < fresh s ->
             objects (fst (load_rows Date_parse i j text s)) l = objects s l).
Proof.
  intros Hs Hlong.
  destruct (load_rows_long Date_parse i text j s Hlong)
    as (He & Hok & _ & Hkeys & Hobj & _).
  destruct (Hok Hs) as (Hk & Hv & _). done.
Qed.

Lemma batch_keeps_collection_witness :
  let text := [sheet_row "CAFE" "" "a" "$4.50" "id-1";
               sheet_row "RENT" "Home" "" "$900" "id-2";
               sheet_row "CAFE" "" "b" "$5.00" "id-1"] in
  let s := empty_loader (store_of (transaction_of "" "" [] "0")) in
  snd (load_rows no_date (JS.of_nat 1) 0 text s) = Completed /\
  NoDup (keys (txnPaginator (fst (load_rows no_date (JS.of_nat 1) 0 text s)))) /\
  NoDup (values (txnPaginator (fst (load_rows no_date (JS.of_nat 1) 0 text s)))) /\
  (forall k, k ∈ keys (txnPaginator (fst (load_rows no_date (JS.of_nat 1) 0 text s))) <->
             k ∈ keys (txnPaginator s) \/ k ∈ map id_of_row text) /\
  (forall l, l < fresh s ->
             objects (fst (load_rows no_date (JS.of_nat 1) 0 text s)) l = objects s l).
Proof.
  intros text s. apply (batch_keeps_collection no_date (JS.of_nat 1) 0 text s).
  - apply empty_loader_ok.
  - intros row Hr. repeat (apply elem_of_cons in Hr as [-> | Hr]; [simpl; lia|]).
    by apply elem_of_nil in Hr.
Defined.

(** X15: when several rows of a batch carry the same identifier, the
    collection holds under that identifier the object built from the
    last of them (with that row's address). *)
Theorem last_row_wins (Date_parse : string -> JS.number) (i : JS.number) (j : nat)
    (before after : list (list string)) (row : list string) (s : loader) :
  (forall r, r ∈ (before ++ row :: after)%list -> 13 <= length r) ->
  (forall r, r ∈ after -> id_of_row r <> id_of_row row) ->
  exists l,
    map_get (txnPaginator (fst (load_rows Date_parse i j (before ++ row :: after) s)))
            (id_of_row row) = Some l /\
    new_Transaction Date_parse row (Some (rowAddress i (j + length before)))
    = Normal (objects (fst (load_rows Date_parse i j (before ++ row :: after) s)) l).
Proof.
  intros Hlong Hafter.
  assert (forall r, r ∈ before -> 13 <= length r) as Hb.
  { intros r Hr. apply Hlong, elem_of_app. by left. }
  assert (forall r, r ∈ after -> 13 <= length r) as Ha.
  { intros r Hr. apply Hlong, elem_of_app. right. by right. }
  exists (fresh s + length before). split.
  - rewrite load_rows_app by done.
    destruct (load_rows_cons Date_parse i (j + length before) row after
                (fst (load_rows Date_parse i j before s)))
      as (newRow & _ & Hid & ->).
    { apply Hlong, elem_of_app. right. by left. }
    destruct (load_rows_long Date_parse i after (S (j + length before))
                (with_row (fst (load_rows Date_parse i j before s)) newRow) Ha)
      as (_ & _ & _ & _ & _ & Hget).
    rewrite Hget.
    + cbn [with_row txnPaginator]. rewrite Hid, map_get_set_eq. f_equal.
      by destruct (load_rows_long Date_parse i before j s Hb) as (_ & _ & -> & _).
    + intros Hin. apply list_elem_of_fmap in Hin as (r & Heq & Hr).
      by apply (Hafter r Hr).
  - apply load_rows_object; [done|].
    by rewrite list_lookup_middle.
Qed.

Lemma last_row_wins_witness :
  exists l,
    map_get
      (txnPaginator
         (fst (load_rows no_date (JS.of_nat 1) 0
                 ([sheet_row "CAFE" "" "a" "$4.50" "id-1"]
                  ++ sheet_row "CAFE" "" "b" "$5.00" "id-1"
                     :: [sheet_row "RENT" "Home" "" "$900" "id-2"])
                 (empty_loader (store_of (transaction_of "" "" [] "0"))))))
      (id_of_row (sheet_row "CAFE" "" "b" "$5.00" "id-1")) = Some l /\
    new_Transaction no_date (sheet_row "CAFE" "" "b" "$5.00" "id-1")
      (Some (rowAddress (JS.of_nat 1) (0 + length [sheet_row "CAFE" "" "a" "$4.50" "id-1"])))
    = Normal
        (objects
           (fst (load_rows no_date (JS.of_nat 1) 0
                   ([sheet_row "CAFE" "" "a" "$4.50" "id-1"]
                    ++ sheet_row "CAFE" "" "b" "$5.00" "id-1"
                       :: [sheet_row "RENT" "Home" "" "$900" "id-2"])
                   (empty_loader (store_of (transaction_of "" "" [] "0"))))) l).
Proof.
  apply (last_row_wins no_date (JS.of_nat 1) 0
           [sheet_row "CAFE" "" "a" "$4.50" "id-1"]
           [sheet_row "RENT" "Home" "" "$900" "id-2"]
           (sheet_row "CAFE" "" "b" "$5.00" "id-1")
           (empty_loader (store_of (transaction_of "" "" [] "0")))).
  - intros r Hr. repeat (apply elem_of_cons in Hr as [-> | Hr]; [simpl; lia|]).
    by apply elem_of_nil in Hr.
  - intros r Hr. apply list_elem_of_singleton in Hr as ->. discriminate.
Defined.

(** X16: loaded into an empty collection, a batch of rows with thirteen
    cells or more gives one entry per row, in the order of the rows,
    when the identifiers of the rows are pairwise distinct; when two
    rows share an identifier the collection has fewer entries than the
    batch has rows. *)
Theorem one_entry_per_distinct_id (Date_parse : string -> JS.number) (i : JS.number)
    (j : nat) (text : list (list string)) (h : store) :
  (forall row, row ∈ text -> 13 <= length row) ->
  (NoDup (map id_of_row text) ->
   keys (txnPaginator (fst (load_rows Date_parse i j text (empty_loader h))))
     = map id_of_row text /\
   values (txnPaginator (fst (load_rows Date_parse i j text (empty_loader h))))
     = seq 0 (length text)) /\
  (~ NoDup (map id_of_row text) ->
   length (txnPaginator (fst (load_rows Date_parse i j text (empty_loader h))))
     < length text).
Proof.
  intros Hlong. split.
  - intros Hnd. by apply (load_rows_distinct Date_parse i text j (empty_loader h)).
  - intros Hdup.
    destruct (load_rows_long Date_parse i text j (empty_loader h) Hlong)
      as (_ & Hok & _ & Hkeys & _).
    destruct (Hok (empty_loader_ok h)) as (Hk & _).
    set (m := txnPaginator (fst (load_rows Date_parse i j text (empty_loader h)))) in *.
    assert (keys m ⊆+ map id_of_row text) as Hsub.
    { apply NoDup_submseteq; [done|]. intros k Hin.
      apply Hkeys in Hin as [Hin%elem_of_nil | Hin]; done. }
    pose proof (submseteq_length _ _ Hsub) as Hle.
    unfold keys in Hle. rewrite !length_map in Hle.
    destruct (decide (length m < length text)) as [|Hge]; [done|].
    exfalso. apply Hdup.
    assert (keys m ≡ₚ map id_of_row text) as Hperm.
    { apply submseteq_length_Permutation; [done|].
      unfold keys. rewrite !length_map. lia. }
    by rewrite <- Hperm.
Qed.

Lemma one_entry_per_distinct_id_witness :
  let text := [sheet_row "CAFE" "" "a" "$4.50" "id-1";
               sheet_row "RENT" "Home" "" "$900" "id-2"] in
  let h := store_of (transaction_of "" "" [] "0") in
  (NoDup (map id_of_row text) ->
   keys (txnPaginator (fst (load_rows no_date (JS.of_nat 1) 0 text (empty_loader h))))
     = map id_of_row text /\
   values (txnPaginator (fst (load_rows no_date (JS.of_nat 1) 0 text (empty_loader h))))
     = seq 0 (length text)) /\
  (~ NoDup (map id_of_row text) ->
   length (txnPaginator (fst (load_rows no_date (JS.of_nat 1) 0 text (empty_loader h))))
     < length text).
Proof.
  intros text h. apply (one_entry_per_distinct_id no_date (JS.of_nat 1) 0 text h).
  intros row Hr. repeat (apply elem_of_cons in Hr as [-> | Hr]; [simpl; lia|]).
  by apply elem_of_nil in Hr.
Defined.

(** X17: a row with fewer than five cells ends the loading of its
    batch: the rows before it are loaded, the row itself and the rows
    after it are not. *)
Theorem short_row_ends_batch (Date_parse : string -> JS.number) (i : JS.number)
    (j : nat) (before after : list (list string)) (short : list string) (s : loader) :
  (forall row, row ∈ before -> 13 <= length row) ->
  length short < 5 ->
  load_rows Date_parse i j (before ++ short :: after) s
  = (fst (load_rows Date_parse i j before s), Threw).
Proof.
  intros Hb Hshort. rewrite load_rows_app by done.
  cbn [load_rows]. by rewrite new_Transaction_short.
Qed.

Lemma short_row_ends_batch_witness :
  load_rows no_date (JS.of_nat 1) 0
    ([sheet_row "CAFE" "" "a" "$4.50" "id-1"] ++ ["10/31/2026"; "RENT"]
       :: [sheet_row "GAS" "" "" "$30" "id-3"])
    (empty_loader (store_of (transaction_of "" "" [] "0")))
  = (fst (load_rows no_date (JS.of_nat 1) 0 [sheet_row "CAFE" "" "a" "$4.50" "id-1"]
            (empty_loader (store_of (transaction_of "" "" [] "0")))),
     Threw).
Proof.
  apply (short_row_ends_batch no_date (JS.of_nat 1) 0
           [sheet_row "CAFE" "" "a" "$4.50" "id-1"]
           [sheet_row "GAS" "" "" "$30" "id-3"] ["10/31/2026"; "RENT"]
           (empty_loader (store_of (transaction_of "" "" [] "0")))).
  - intros row Hr. apply list_elem_of_singleton in Hr as ->. simpl. lia.
  - simpl. lia.
Defined.

(** X18: from the sheet to the written column: when the rows of a batch
    have thirteen cells or more and pairwise distinct identifiers, the
    projection of the pass over the loaded collection has one row per
    sheet row; entry [n] of the collection is keyed by the identifier of
    sheet row [n] and holds the object built from that row, and row [n]
    of the projection is the cell of that object as the pass left it. *)
Theorem column_lines_up_with_sheet (Date_parse : string -> JS.number) (i : JS.number)
    (text : list (list string)) (h : store) (rules : list Rule.t)
    (uncategorizedOnly : bool) :
  (forall row, row ∈ text -> 13 <= length row) ->
  NoDup (map id_of_row text) ->
  length
    (scrapeTags
       (fst (runRules rules
               (txnPaginator (fst (load_rows Date_parse i 0 text (empty_loader h))))
               uncategorizedOnly
               (objects (fst (load_rows Date_parse i 0 text (empty_loader h))))))
       (snd (runRules rules
               (txnPaginator (fst (load_rows Date_parse i 0 text (empty_loader h))))
               uncategorizedOnly
               (objects (fst (load_rows Date_parse i 0 text (empty_loader h)))))))
  = length text /\
  forall n row,
    text !! n = Some row ->
    exists l,
      txnPaginator (fst (load_rows Date_parse i 0 text (empty_loader h))) !! n
      = Some (id_of_row row, l) /\
      new_Transaction Date_parse row (Some (rowAddress i n))
      = Normal (objects (fst (load_rows Date_parse i 0 text (empty_loader h))) l) /\
      scrapeTags
        (fst (runRules rules
                (txnPaginator (fst (load_rows Date_parse i 0 text (empty_loader h))))
                uncategorizedOnly
                (objects (fst (load_rows Date_parse i 0 text (empty_loader h))))))
        (snd (runRules rules
                (txnPaginator (fst (load_rows Date_parse i 0 text (empty_loader h))))
                uncategorizedOnly
                (objects (fst (load_rows Date_parse i 0 text (empty_loader h))))))
        !! n
      = Some [tagArray
                (fst (runRules rules
                        (txnPaginator (fst (load_rows Date_parse i 0 text (empty_loader h))))
                        uncategorizedOnly
                        (objects (fst (load_rows Date_parse i 0 text (empty_loader h)))))
                     l)].
Proof.
  intros Hlong Hnd.
  destruct (load_rows_distinct Date_parse i text 0 (empty_loader h) Hlong Hnd)
    as [Hkeys Hvalues].
  set (s' := fst (load_rows Date_parse i 0 text (empty_loader h))) in *.
  cbn [empty_loader txnPaginator fresh values keys map app] in Hkeys, Hvalues.
  rewrite runRules_result, scrapeTags_map. split.
  - by rewrite length_map, Hvalues, length_seq.
  - intros n row Hn.
    pose proof (load_rows_object Date_parse i text 0 (empty_loader h) n row Hlong Hn)
      as Hobj.
    fold s' in Hobj. cbn [empty_loader fresh] in Hobj. simpl in Hobj.
    assert (n < length text) as Hlt by (by apply lookup_lt_Some in Hn).
    assert (txnPaginator s' !! n = @Some (string * ref) (id_of_row row, n)) as Hentry.
    { assert (keys (txnPaginator s') !! n = Some (id_of_row row)) as Hk.
      { by rewrite Hkeys, list_lookup_fmap, Hn. }
      assert (values (txnPaginator s') !! n = Some n) as Hv.
      { rewrite Hvalues. by apply lookup_seq_lt. }
      unfold keys, values, TransactionMap in *.
      rewrite list_lookup_fmap in Hk. rewrite list_lookup_fmap in Hv.
      revert Hk Hv. generalize (txnPaginator s'). unfold TransactionMap.
      intros m Hk Hv.
      destruct (m !! n) as [[k v]|]; simpl in *; [|discriminate Hk].
      injection Hk as ->. by injection Hv as ->. }
    exists n. split_and!; [done | done |].
    unfold values, TransactionMap in *. by rewrite !list_lookup_fmap, Hentry.
Qed.

Lemma column_lines_up_with_sheet_witness :
  let text := [sheet_row "CAFE LATTE" "" "a" "$4.50" "id-1";
               sheet_row "RENT" "Home" "" "$900" "id-2"] in
  let h := store_of (transaction_of "" "" [] "0") in
  let rules := [Rule.new "Food" "dining" "CAFE" "" "" ">0"] in
  length
    (scrapeTags
       (fst (runRules rules
               (txnPaginator (fst (load_rows no_date (JS.of_nat 1) 0 text (empty_loader h))))
               false
               (objects (fst (load_rows no_date (JS.of_nat 1) 0 text (empty_loader h))))))
       (snd (runRules rules
               (txnPaginator (fst (load_rows no_date (JS.of_nat 1) 0 text (empty_loader h))))
               false
               (objects (fst (load_rows no_date (JS.of_nat 1) 0 text (empty_loader h)))))))
  = length text /\
  forall n row,
    text !! n = Some row ->
    exists l,
      txnPaginator (fst (load_rows no_date (JS.of_nat 1) 0 text (empty_loader h))) !! n
      = Some (id_of_row row, l) /\
      new_Transaction no_date row (Some (rowAddress (JS.of_nat 1) n))
      = Normal (objects (fst (load_rows no_date (JS.of_nat 1) 0 text (empty_loader h))) l) /\
      scrapeTags
        (fst (runRules rules
                (txnPaginator (fst (load_rows no_date (JS.of_nat 1) 0 text (empty_loader h))))
                false
                (objects (fst (load_rows no_date (JS.of_nat 1) 0 text (empty_loader h))))))
        (snd (runRules rules
                (txnPaginator (fst (load_rows no_date (JS.of_nat 1) 0 text (empty_loader h))))
                false
                (objects (fst (load_rows no_date (JS.of_nat 1) 0 text (empty_loader h))))))
        !! n
      = Some [tagArray
                (fst (runRules rules
                        (txnPaginator (fst (load_rows no_date (JS.of_nat 1) 0 text (empty_loader h))))
                        false
                        (objects (fst (load_rows no_date (JS.of_nat 1) 0 text (empty_loader h)))))
                     l)].
Proof.
  intros text h rules.
  apply (column_lines_up_with_sheet no_date (JS.of_nat 1) text h rules false).
  - intros row Hr. repeat (apply elem_of_cons in Hr as [-> | Hr]; [simpl; lia|]).
    by apply elem_of_nil in Hr.
  - apply (bool_decide_unpack _). vm_compute. exact I.
Defined.

(** The written column of the sample above. *)
Example column_sample :
  let s := fst (load_rows no_date (JS.of_nat 1) 0
                  [sheet_row "CAFE LATTE" "" "a" "$4.50" "id-1";
                   sheet_row "RENT" "Home" "" "$900" "id-2"]
                  (empty_loader (store_of (transaction_of "" "" [] "0")))) in
  let r := runRules [Rule.new "Food" "dining" "CAFE" "" "" ">0"]
             (txnPaginator s) false (objects s) in
  scrapeTags (fst r) (snd r) = [[Some "a,dining"]; [None]] /\
  Transaction.address (fst r 0) = Some (JS.parseFloat "2") /\
  Transaction.address (fst r 1) = Some (JS.parseFloat "3").
Proof. vm_compute. done. Qed.
